(** * Anchor positioning plugins of data-satelites: model and properties

    Two drafts of the anchor plugin live in the repository:
    - [dist/src/anchor.js]: the resolver [parseAnchorConfig], the CSS-native
      positioner ([generateAnchorName], [getAnchorCSS],
      [getPositionTryOptions]), the script fallback
      [applyFallbackPositioning] and the plugin entry point [onLoad];
    - [dist/anchor.js]: the geometry engine [FloatingUICore.computePosition],
      and the modifier-key plugin built on it ([AutoUpdate], [AnchorPlugin]).

    Also modelled: the later draft of the script fallback, which flips the
    placement to stay in the viewport, and two helpers of the plugin loader
    (both in [src/plugin-loader.ts]).

    Conventions of the model.
    - A JavaScript number is a rational ([Qc]); rounding of doubles is not
      modelled.  A statement that names the number read from a text is made
      for runs of at most 15 digits, and one that bounds a computed
      coordinate for layouts in whole pixels: there the doubles of the code
      hold the same numbers.
    - A JavaScript string is a [string] whose characters stand for UTF-16
      code units below 256 (the Latin-1 range).
    - A DOM node is a handle (an index into the document, in tree order), so
      that two names for one node share its state. *)

From Stdlib Require Import ZArith QArith Qcanon String Ascii List Lia Lqa.
From stdpp Require Import gmap strings pretty.
Import ListNotations.
Open Scope string_scope.

(** ** JavaScript values and string primitives *)

Module Js.

(** The number [z], as a JavaScript number. *)
Definition ofZ (z : Z) : Qc := Q2Qc (inject_Z z).

(** Errors raised by the language or the host. *)
Inductive Error : Type :=
| TypeError
| DOMSyntaxError.

(** The completion of a call that may raise. *)
Inductive Completion (A : Type) : Type :=
| Normal (a : A)
| Throw (e : Error).
Arguments Normal {A} a.
Arguments Throw {A} e.

(** [s || d] on strings: the empty string is falsy. *)
Definition orElse (s d : string) : string :=
  match s with
  | EmptyString => d
  | _ => s
  end.

(** [v || d] where [v] is a string, [null] or [undefined]. *)
Definition orDefault (v : option string) (d : string) : string :=
  match v with
  | Some s => orElse s d
  | None => d
  end.

(** Truthiness of a string: [part.length > 0]. *)
Definition nonEmpty (s : string) : bool :=
  match s with
  | EmptyString => false
  | _ => true
  end.

Definition codeIn (lo hi : nat) (c : ascii) : bool :=
  (lo <=? nat_of_ascii c)%nat && (nat_of_ascii c <=? hi)%nat.

(** [\d] *)
Definition isDigit (c : ascii) : bool := codeIn 48 57 c.

(** [[a-z]] and [[A-Z]] *)
Definition isLower (c : ascii) : bool := codeIn 97 122 c.
Definition isUpper (c : ascii) : bool := codeIn 65 90 c.

(** [[a-zA-Z0-9]] *)
Definition isAlnum (c : ascii) : bool := isLower c || isUpper c || isDigit c.

(** [[a-z%]] *)
Definition isUnitChar (c : ascii) : bool :=
  isLower c || (nat_of_ascii c =? 37)%nat.

(** The class of the two quote characters, code units 39 and 34. *)
Definition isQuote (c : ascii) : bool :=
  (nat_of_ascii c =? 39)%nat || (nat_of_ascii c =? 34)%nat.

(** [\s], and what [trim] strips: TAB, LF, VT, FF, CR, SPACE and NBSP are
    the white space and line terminators below 256. *)
Definition isWhitespace (c : ascii) : bool :=
  codeIn 9 13 c || (nat_of_ascii c =? 32)%nat || (nat_of_ascii c =? 160)%nat.

(** The one-character string. *)
Definition char (c : ascii) : string := String c EmptyString.

(** Every character of [s] is in the class [p]. *)
Fixpoint allChars (p : ascii -> bool) (s : string) : bool :=
  match s with
  | EmptyString => true
  | String c s' => p c && allChars p s'
  end.

Definition comma : ascii := ascii_of_nat 44.
Definition dot : ascii := ascii_of_nat 46.
Definition hyphen : ascii := ascii_of_nat 45.

(** [s.startsWith(p)] *)
Fixpoint startsWith (p s : string) : bool :=
  match p, s with
  | EmptyString, _ => true
  | String a p', String b s' => Ascii.eqb a b && startsWith p' s'
  | String _ _, EmptyString => false
  end.

(** [s.includes(needle)] *)
Fixpoint includes (needle s : string) : bool :=
  startsWith needle s
  || match s with
     | EmptyString => false
     | String _ s' => includes needle s'
     end.

(** [s.slice(n)] for [n >= 0]. *)
Fixpoint slice (n : nat) (s : string) : string :=
  match n, s with
  | O, _ => s
  | S n', String _ s' => slice n' s'
  | S _, EmptyString => EmptyString
  end.

(** [s.replace(pat, rep)] with a string pattern: the first occurrence
    only. *)
Fixpoint replace (pat rep s : string) : string :=
  if startsWith pat s then rep ++ slice (String.length pat) s
  else match s with
       | EmptyString => EmptyString
       | String c s' => String c (replace pat rep s')
       end.

(** [s.replace(/[^a-zA-Z0-9]/g, hyphen)]: every code unit outside the
    class becomes a hyphen. *)
Definition sanitizeChar (c : ascii) : ascii :=
  if isAlnum c then c else hyphen.

Fixpoint mapChars (f : ascii -> ascii) (s : string) : string :=
  match s with
  | EmptyString => EmptyString
  | String c s' => String (f c) (mapChars f s')
  end.

(** [value.replace(/^[q]|[q]$/g, empty)], where [q] stands for the two
    quote characters: the first alternative can only match at index 0 and
    the second only at the last index; the global search resumes after a
    match, so a one-character string loses its quote once. *)
Definition stripLeadingQuote (s : string) : string :=
  match s with
  | String c s' => if isQuote c then s' else s
  | EmptyString => EmptyString
  end.

Fixpoint stripTrailingQuote (s : string) : string :=
  match s with
  | EmptyString => EmptyString
  | String c s' =>
      match s' with
      | EmptyString => if isQuote c then EmptyString else s
      | String _ _ => String c (stripTrailingQuote s')
      end
  end.

Definition stripQuotes (s : string) : string :=
  stripTrailingQuote (stripLeadingQuote s).

(** [s.trim()] *)
Fixpoint trimStart (s : string) : string :=
  match s with
  | EmptyString => EmptyString
  | String c s' => if isWhitespace c then trimStart s' else s
  end.

Fixpoint trimEnd (s : string) : string :=
  match s with
  | EmptyString => EmptyString
  | String c s' =>
      match trimEnd s' with
      | EmptyString => if isWhitespace c then EmptyString else String c EmptyString
      | String _ _ as r => String c r
      end
  end.

Definition trim (s : string) : string := trimEnd (trimStart s).

(** [s.split(sep)] for a one-character separator: never the empty list,
    and [n] separators give [n + 1] segments. *)
Fixpoint split (sep : ascii) (s : string) : list string :=
  match s with
  | EmptyString => [EmptyString]
  | String c s' =>
      if Ascii.eqb c sep then EmptyString :: split sep s'
      else match split sep s' with
           | seg :: rest => String c seg :: rest
           | [] => [String c EmptyString]
           end
  end.

(** [l.join(sep)] *)
Definition join (sep : string) (l : list string) : string :=
  String.concat sep l.

(** The longest prefix of [s] in the class [p], and what follows it. *)
Fixpoint span (p : ascii -> bool) (s : string) : string * string :=
  match s with
  | EmptyString => (EmptyString, EmptyString)
  | String c s' =>
      if p c then let '(a, b) := span p s' in (String c a, b)
      else (EmptyString, s)
  end.

(** The value of a run of decimal digits. *)
Definition digitValue (c : ascii) : Z := Z.of_nat (nat_of_ascii c) - 48.

Fixpoint digitsValue (acc : Z) (s : string) : Z :=
  match s with
  | EmptyString => acc
  | String c s' => digitsValue (10 * acc + digitValue c) s'
  end.

(** [parseFloat(s)] on the literals the offset pattern lets through:
    digits, optionally followed by a dot and digits.  The model answers the
    rational the literal denotes.  The code answers the double nearest to
    it: the same number for a run of at most 15 digits (a whole number
    below 2^53), a rounded one beyond, and [Infinity] from 2^1024 on. *)
Definition parseFloat (s : string) : Qc :=
  let '(int, rest) := span isDigit s in
  match rest with
  | String c frac =>
      if Ascii.eqb c dot then
        let '(f, _) := span isDigit frac in
        (ofZ (digitsValue 0 int)
         + ofZ (digitsValue 0 f) / ofZ (10 ^ Z.of_nat (String.length f)))%Qc
      else ofZ (digitsValue 0 int)
  | EmptyString => ofZ (digitsValue 0 int)
  end.

(** [s.match(re)] for the offset pattern [re], anchored at both ends: group
    1 is one or more digits with an optional fraction (a dot and one or
    more digits), then any run of [\s], then group 2, any run of [[a-z%]].
    The result is the two capture groups, or [None] for [null].  The
    classes of consecutive parts are disjoint, so the greedy reading is the
    only possible match. *)
Definition matchOffset (s : string) : option (string * string) :=
  let '(int, r1) := span isDigit s in
  if nonEmpty int then
    let '(number, r2) :=
      match r1 with
      | String c r =>
          if Ascii.eqb c dot then
            let '(frac, r') := span isDigit r in
            if nonEmpty frac then (int ++ String dot frac, r') else (int, r1)
          else (int, r1)
      | EmptyString => (int, r1)
      end in
    let '(_, r3) := span isWhitespace r2 in
    let '(unit, r4) := span isUnitChar r3 in
    if nonEmpty r4 then None else Some (number, unit)
  else None.

(** A [switch] on a string whose cases all end in [break]. *)
Fixpoint switch {A : Type} (scrutinee : string) (cases : list (string * A))
    (default : A) : A :=
  match cases with
  | [] => default
  | (label, body) :: rest =>
      if scrutinee =? label then body else switch scrutinee rest default
  end.

End Js.

(** ** The page: nodes, styles, the window and the host browser *)

Module Dom.

(** What [getBoundingClientRect()] returns. *)
Record Rect : Type := mkRect {
  left : Qc;
  top : Qc;
  right : Qc;
  bottom : Qc;
  width : Qc;
  height : Qc;
}.

(** A style value written by the plugin: a template literal, kept as its
    pieces, so that no number has to be printed. *)
Inductive Piece : Type :=
| Lit (s : string)
| Num (q : Qc).

Definition CssText : Type := list Piece.

Definition text (s : string) : CssText := [Lit s].

Record Element : Type := mkElement {
  id : string;
  (** The content attributes other than [style]: that one is the text of
      the inline style below, and the plugins never read it. *)
  attributes : gmap string string;
  (** The inline style, as the properties written on [el.style]. *)
  style : gmap string CssText;
  (** What [getBoundingClientRect()] answers when a plugin asks.  Layout is
      the browser's: a style write may move any box, and the model does
      not follow it, so a rectangle stands for the answer at the time of a
      read and nothing is stated of rectangles across writes. *)
  rect : Rect;
  (** [parseFloat(getComputedStyle(el).fontSize)] *)
  fontSize : Qc;
}.

Definition NodeRef : Type := nat.

(** The nodes of the document, in tree order. *)
Definition Document : Type := list Element.

Definition blank : Element :=
  {| id := EmptyString; attributes := ∅; style := ∅;
     rect := mkRect 0 0 0 0 0 0; fontSize := 0 |}.

(** The node behind a handle.  The handles the framework passes are live; a
    handle outside the document reads as a blank node. *)
Definition node (doc : Document) (n : NodeRef) : Element :=
  default blank (doc !! n).

(** [el.getAttribute(name)] *)
Definition getAttribute (el : Element) (name : string) : option string :=
  attributes el !! name.

Definition setId (v : string) (e : Element) : Element :=
  {| id := v; attributes := attributes e; style := style e;
     rect := rect e; fontSize := fontSize e |}.

(** [el.style[prop] = v]: the write itself.  What the browser derives from
    it, the text of the [style] attribute and the layout, is not part of
    the node's record (see [Element]). *)
Definition setStyle (prop : string) (v : CssText) (e : Element) : Element :=
  {| id := id e; attributes := attributes e; style := <[prop := v]> (style e);
     rect := rect e; fontSize := fontSize e |}.

(** [Object.assign(el.style, styles)] *)
Definition assignStyle (styles : gmap string CssText) (e : Element) : Element :=
  {| id := id e; attributes := attributes e; style := styles ∪ style e;
     rect := rect e; fontSize := fontSize e |}.

(** A mutation of the node behind a handle. *)
Definition update (f : Element -> Element) (n : NodeRef) (doc : Document) : Document :=
  alter f n doc.

Fixpoint findIndex {A : Type} (p : A -> bool) (l : list A) : option nat :=
  match l with
  | [] => None
  | a :: l' => if p a then Some O else S <$> findIndex p l'
  end.

(** [document.getElementById(s)]: the first node in tree order with that
    id; a node whose id is empty has no id. *)
Definition getElementById (doc : Document) (s : string) : option NodeRef :=
  if Js.nonEmpty s then findIndex (fun e => id e =? s) doc else None.

Record Window : Type := mkWindow {
  innerWidth : Qc;
  innerHeight : Qc;
  scrollX : Qc;
  scrollY : Qc;
}.

(** The closure [handleUpdate] of one call of [applyFallbackPositioning],
    with the variables it captures. *)
Record Closure : Type := mkClosure {
  closureId : nat;
  c_el : NodeRef;
  c_target : NodeRef;
  c_placement : string;
  c_offsetValue : Qc;
  c_offsetUnit : string;
}.

(** The mutable state of the page. *)
Record Page : Type := mkPage {
  document : Document;
  (** [window]'s listeners: event type and callback. *)
  listeners : list (string * Closure);
  (** The identity of the next closure created. *)
  nextClosure : nat;
}.

(** What the host browser answers during one call of the plugin. *)
Record Browser : Type := mkBrowser {
  window : Window;
  (** [parseFloat(getComputedStyle(document.documentElement).fontSize)] *)
  rootFontSize : Qc;
  (** [CSS.supports], or [None] where the lookup of [CSS.supports] raises. *)
  cssSupports : option (string -> string -> bool);
  (** [Date.now()] *)
  dateNow : Z;
  (** [document.querySelector(sel)]: the selector engine is the browser's.
      It answers a node or [null], or raises on a malformed selector. *)
  querySelector : Document -> string -> Js.Completion (option NodeRef);
}.

End Dom.

(** ** The placement resolver ([dist/src/anchor.js], lines 11-36) *)

Module Resolver.
Import Js.

Record AnchorConfig : Type := mkConfig {
  target : string;
  placement : string;
  offsetValue : Qc;
  offsetUnit : string;
}.

(** [cleanValue] *)
Definition cleanValue (value : string) : string := trim (stripQuotes value).

(** [parts] *)
Definition parts (cleanValue : string) : list string :=
  List.filter nonEmpty (map trim (split comma cleanValue)).

(** The default offset, [8] and [px]. *)
Definition defaultOffset : Qc * string := (ofZ 8, "px").

(** The locals [offsetValue] and [offsetUnit] of the comma branch, once the
    third part has been looked at. *)
Definition commaOffset (parts : list string) : Qc * string :=
  match parts !! 2%nat with
  | Some part =>
      if nonEmpty part then
        match matchOffset part with
        | Some (g1, g2) => (parseFloat g1, orElse g2 "px")
        | None => defaultOffset
        end
      else defaultOffset
  | None => defaultOffset
  end.

(** The branch taken when [cleanValue] holds a comma. *)
Definition parseCommaForm (cleanValue : string) : AnchorConfig :=
  let parts := parts cleanValue in
  let target := orDefault (parts !! 0%nat) EmptyString in
  let placement := orDefault (parts !! 1%nat) "bottom" in
  let offset := commaOffset parts in
  mkConfig target placement (fst offset) (snd offset).

(** The branch taken otherwise. *)
Definition parseAttributeForm (el : Dom.Element) (cleanValue : string) : AnchorConfig :=
  let target :=
    orElse cleanValue (orDefault (Dom.getAttribute el "data-anchor") EmptyString) in
  let placement := orDefault (Dom.getAttribute el "data-anchor-placement") "bottom" in
  let offsetAttr := orDefault (Dom.getAttribute el "data-anchor-offset") "8" in
  let offsetMatch := matchOffset offsetAttr in
  let offsetValue :=
    match offsetMatch with
    | Some (g1, _) => parseFloat g1
    | None => ofZ 8
    end in
  let offsetUnit :=
    match offsetMatch with
    | Some (_, g2) => orElse g2 "px"
    | None => "px"
    end in
  mkConfig target placement offsetValue offsetUnit.

Definition parseAnchorConfig (el : Dom.Element) (value : string) : AnchorConfig :=
  let cleanValue := cleanValue value in
  if includes (char comma) cleanValue then parseCommaForm cleanValue
  else parseAttributeForm el cleanValue.

End Resolver.

(** ** The CSS-native positioner ([dist/src/anchor.js], lines 1-10, 37-129) *)

Module CssNative.
Import Js Dom.

Definition supportsCSSAnchor (b : Browser) : bool :=
  match cssSupports b with
  | Some supports => supports "anchor-name" "--test" && supports "top" "anchor(top)"
  | None => false
  end.

Definition generateAnchorName (targetId : string) : string :=
  "--anchor-" ++ mapChars sanitizeChar targetId.

(** The own properties of the object literal [fallbacks]. *)
Definition fallbacks : list (string * list string) :=
  [ ("top", ["bottom"; "left"; "right"]);
    ("top-start", ["bottom-start"; "top-end"; "bottom-end"]);
    ("top-end", ["bottom-end"; "top-start"; "bottom-start"]);
    ("bottom", ["top"; "left"; "right"]);
    ("bottom-start", ["top-start"; "bottom-end"; "top-end"]);
    ("bottom-end", ["top-end"; "bottom-start"; "top-start"]);
    ("left", ["right"; "top"; "bottom"]);
    ("left-start", ["right-start"; "left-end"; "right-end"]);
    ("left-end", ["right-end"; "left-start"; "right-start"]);
    ("right", ["left"; "top"; "bottom"]);
    ("right-start", ["left-start"; "right-end"; "left-end"]);
    ("right-end", ["left-end"; "right-start"; "left-start"]) ].

(** The properties every object literal inherits from [Object.prototype];
    each is a function or an object, hence truthy, and none has a [map]
    method. *)
Definition objectPrototypeNames : list string :=
  [ "constructor"; "hasOwnProperty"; "isPrototypeOf"; "propertyIsEnumerable";
    "toLocaleString"; "toString"; "valueOf"; "__proto__";
    "__defineGetter__"; "__defineSetter__"; "__lookupGetter__";
    "__lookupSetter__" ].

(** [fallbacks[placement]]: an own property, an inherited one, or
    [undefined]. *)
Inductive Property : Type :=
| Own (candidates : list string)
| Inherited
| Undefined.

Definition fallbacksAt (placement : string) : Property :=
  switch placement (map (fun '(k, v) => (k, Own v)) fallbacks)
    (if existsb (String.eqb placement) objectPrototypeNames then Inherited
     else Undefined).

Definition renderTryOptions (fallbackPlacements : list string) : string :=
  join ", " (map (fun p => "flip-" ++ p) fallbackPlacements).

Definition getPositionTryOptions (placement : string) : Completion string :=
  match fallbacksAt placement with
  | Own fallbackPlacements => Normal (renderTryOptions fallbackPlacements)
  | Inherited => Throw TypeError
  | Undefined => Normal (renderTryOptions ["bottom"; "top"; "left"; "right"])
  end.

(** [styles.a = u; styles.b = v; ...] *)
Definition assign (props : list (string * CssText)) (styles : gmap string CssText)
    : gmap string CssText :=
  fold_left (fun m '(k, v) => <[k := v]> m) props styles.

Definition getAnchorCSS (anchorName placement : string) (offsetValue : Qc)
    (offsetUnit : string) : Completion (gmap string CssText) :=
  let offset : CssText := [Num offsetValue; Lit offsetUnit] in
  match getPositionTryOptions placement with
  | Throw e => Throw e
  | Normal tryOptions =>
      let styles : gmap string CssText :=
        assign [ ("position", text "absolute");
                 ("position-anchor", text anchorName);
                 ("position-try-options", text tryOptions) ] ∅ in
      let above := Lit "0 -" :: offset in
      let below := Lit "0 " :: offset in
      let before := Lit "-" :: (offset ++ [Lit " 0"])%list in
      let after := (offset ++ [Lit " 0"])%list in
      let bottomCentre :=
        [ ("top", text "anchor(bottom)"); ("left", text "anchor(center)");
          ("translate", Lit "-50% " :: offset) ] in
      Normal (assign
        (switch placement
           [ ("top",
               [ ("bottom", text "anchor(top)"); ("left", text "anchor(center)");
                 ("translate", Lit "-50% -" :: offset) ]);
             ("top-start",
               [ ("bottom", text "anchor(top)"); ("left", text "anchor(left)");
                 ("translate", above) ]);
             ("top-end",
               [ ("bottom", text "anchor(top)"); ("right", text "anchor(right)");
                 ("translate", above) ]);
             ("bottom", bottomCentre);
             ("bottom-start",
               [ ("top", text "anchor(bottom)"); ("left", text "anchor(left)");
                 ("translate", below) ]);
             ("bottom-end",
               [ ("top", text "anchor(bottom)"); ("right", text "anchor(right)");
                 ("translate", below) ]);
             ("left",
               [ ("right", text "anchor(left)"); ("top", text "anchor(center)");
                 ("translate", Lit "-" :: (offset ++ [Lit " -50%"])%list) ]);
             ("left-start",
               [ ("right", text "anchor(left)"); ("top", text "anchor(top)");
                 ("translate", before) ]);
             ("left-end",
               [ ("right", text "anchor(left)"); ("bottom", text "anchor(bottom)");
                 ("translate", before) ]);
             ("right",
               [ ("left", text "anchor(right)"); ("top", text "anchor(center)");
                 ("translate", (offset ++ [Lit " -50%"])%list) ]);
             ("right-start",
               [ ("left", text "anchor(right)"); ("top", text "anchor(top)");
                 ("translate", after) ]);
             ("right-end",
               [ ("left", text "anchor(right)"); ("bottom", text "anchor(bottom)");
                 ("translate", after) ]) ]
           bottomCentre)
        styles)
  end.

End CssNative.

(** ** The script fallback ([dist/src/anchor.js], lines 130-230) *)

Module Fallback.
Import Js Dom.
Local Open Scope Qc_scope.

(** The unit switch that fills [offsetPx]. *)
Definition offsetPx (b : Browser) (el : Element) (offsetValue : Qc)
    (offsetUnit : string) : Qc :=
  switch offsetUnit
    [ ("rem", offsetValue * rootFontSize b);
      ("em", offsetValue * fontSize el);
      ("vw", offsetValue / ofZ 100 * innerWidth (window b));
      ("vh", offsetValue / ofZ 100 * innerHeight (window b)) ]
    offsetValue.

(** What the placement switch leaves in [x], [y] and
    [el.style.translate]. *)
Record Placed : Type := mkPlaced {
  x : Qc;
  y : Qc;
  translate : string;
}.

Definition place (targetRect : Rect) (placement : string) (offsetPx : Qc) : Placed :=
  let centreX := left targetRect + width targetRect / ofZ 2 in
  let centreY := top targetRect + height targetRect / ofZ 2 in
  switch placement
    [ ("top", mkPlaced centreX (top targetRect - offsetPx) "-50% -100%");
      ("top-start", mkPlaced (left targetRect) (top targetRect - offsetPx) "0 -100%");
      ("top-end", mkPlaced (right targetRect) (top targetRect - offsetPx) "-100% -100%");
      ("bottom", mkPlaced centreX (bottom targetRect + offsetPx) "-50% 0");
      ("bottom-start", mkPlaced (left targetRect) (bottom targetRect + offsetPx) "0 0");
      ("bottom-end", mkPlaced (right targetRect) (bottom targetRect + offsetPx) "-100% 0");
      ("left", mkPlaced (left targetRect - offsetPx) centreY "-100% -50%");
      ("left-start", mkPlaced (left targetRect - offsetPx) (top targetRect) "-100% 0");
      ("left-end", mkPlaced (left targetRect - offsetPx) (bottom targetRect) "-100% -100%");
      ("right", mkPlaced (right targetRect + offsetPx) centreY "0 -50%");
      ("right-start", mkPlaced (right targetRect + offsetPx) (top targetRect) "0 0");
      ("right-end", mkPlaced (right targetRect + offsetPx) (bottom targetRect) "0 -100%") ]
    (mkPlaced centreX (bottom targetRect + offsetPx) "-50% 0").

(** The values [updatePosition] writes: the switch result moved by the
    scroll offsets. *)
Definition position (b : Browser) (doc : Document) (el target : NodeRef)
    (placement : string) (offsetValue : Qc) (offsetUnit : string) : Placed :=
  let targetRect := rect (node doc target) in
  let offsetPx := offsetPx b (node doc el) offsetValue offsetUnit in
  let p := place targetRect placement offsetPx in
  mkPlaced (x p + scrollX (window b)) (y p + scrollY (window b)) (translate p).

Definition updatePosition (b : Browser) (doc : Document) (el target : NodeRef)
    (placement : string) (offsetValue : Qc) (offsetUnit : string) : Document :=
  let p := position b doc el target placement offsetValue offsetUnit in
  update (fun e =>
            setStyle "top" [Num (y p); Lit "px"]
              (setStyle "left" [Num (x p); Lit "px"]
                 (setStyle "position" (text "absolute")
                    (setStyle "translate" (text (translate p)) e))))
    el doc.

(** The returned function: it removes the two listeners. *)
Definition cleanup (c : Closure) (page : Page) : Page :=
  mkPage (document page)
    (List.filter
       (fun '(type, callback) =>
          negb (((type =? "scroll") || (type =? "resize"))
                && Nat.eqb (closureId callback) (closureId c)))
       (listeners page))
    (nextClosure page).

Definition applyFallbackPositioning (b : Browser) (page : Page) (el target : NodeRef)
    (placement : string) (offsetValue : Qc) (offsetUnit : string) : Page * Closure :=
  let doc := updatePosition b (document page) el target placement offsetValue offsetUnit in
  let handleUpdate :=
    mkClosure (nextClosure page) el target placement offsetValue offsetUnit in
  (mkPage doc
     (listeners page ++ [("scroll", handleUpdate); ("resize", handleUpdate)])%list
     (S (nextClosure page)),
   handleUpdate).

(** A [scroll] or [resize] event: every registered callback runs
    [updatePosition] with its captured variables. *)
Definition dispatch (b : Browser) (type : string) (page : Page) : Page :=
  mkPage
    (fold_left
       (fun doc '(t, c) =>
          if t =? type then
            updatePosition b doc (c_el c) (c_target c) (c_placement c)
              (c_offsetValue c) (c_offsetUnit c)
          else doc)
       (listeners page) (document page))
    (listeners page) (nextClosure page).

End Fallback.

(** ** The geometry engine ([dist/anchor.js], lines 20-137) *)

Module FloatingUICore.
Import Js Dom.
Local Open Scope Qc_scope.

(** The [options] argument; an absent member is [None]. *)
Record Options : Type := mkOptions {
  placement : option string;
  offset : option Qc;
}.

(** The returned object. *)
Record Position : Type := mkPosition {
  x : Qc;
  y : Qc;
}.

(** The locals [finalPlacement], [x] and [y]. *)
Record Locals : Type := mkLocals {
  finalPlacement : string;
  lx : Qc;
  ly : Qc;
}.

Definition padding : Qc := ofZ 5.

(** Lines 31-84: the base position. *)
Definition basePosition (placement : string) (refRect floatingRect : Rect)
    (offset : Qc) : Locals :=
  let centredX := left refRect + (width refRect - width floatingRect) / ofZ 2 in
  let centredY := top refRect + (height refRect - height floatingRect) / ofZ 2 in
  let above := top refRect - height floatingRect - offset in
  let below := bottom refRect + offset in
  let before := left refRect - width floatingRect - offset in
  let after := right refRect + offset in
  switch placement
    [ ("top", mkLocals placement centredX above);
      ("top-start", mkLocals placement (left refRect) above);
      ("top-end", mkLocals placement (right refRect - width floatingRect) above);
      ("bottom", mkLocals placement centredX below);
      ("bottom-start", mkLocals placement (left refRect) below);
      ("bottom-end", mkLocals placement (right refRect - width floatingRect) below);
      ("left", mkLocals placement before centredY);
      ("left-start", mkLocals placement before (top refRect));
      ("left-end", mkLocals placement before (bottom refRect - height floatingRect));
      ("right", mkLocals placement after centredY);
      ("right-start", mkLocals placement after (top refRect));
      ("right-end", mkLocals placement after (bottom refRect - height floatingRect)) ]
    (mkLocals "bottom" centredX below).

(** Lines 88-109: the left edge, else the right edge. *)
Definition adjustHorizontal (viewportWidth : Qc) (refRect floatingRect : Rect)
    (offset : Qc) (l : Locals) : Locals :=
  if decide (lx l < padding) then
    if includes "left" (finalPlacement l) then
      mkLocals (replace "left" "right" (finalPlacement l)) (right refRect + offset) (ly l)
    else mkLocals (finalPlacement l) padding (ly l)
  else if decide (viewportWidth - padding < lx l + width floatingRect) then
    if includes "right" (finalPlacement l) then
      mkLocals (replace "right" "left" (finalPlacement l))
        (left refRect - width floatingRect - offset) (ly l)
    else mkLocals (finalPlacement l) (viewportWidth - width floatingRect - padding) (ly l)
  else l.

(** Lines 110-131: the top edge, else the bottom edge. *)
Definition adjustVertical (viewportHeight : Qc) (refRect floatingRect : Rect)
    (offset : Qc) (l : Locals) : Locals :=
  if decide (ly l < padding) then
    if includes "top" (finalPlacement l) then
      mkLocals (replace "top" "bottom" (finalPlacement l)) (lx l) (bottom refRect + offset)
    else mkLocals (finalPlacement l) (lx l) padding
  else if decide (viewportHeight - padding < ly l + height floatingRect) then
    if includes "bottom" (finalPlacement l) then
      mkLocals (replace "bottom" "top" (finalPlacement l)) (lx l)
        (top refRect - height floatingRect - offset)
    else mkLocals (finalPlacement l) (lx l) (viewportHeight - height floatingRect - padding)
  else l.

(** The locals when line 132 is reached. *)
Definition adjusted (w : Window) (refRect floatingRect : Rect) (placement : string)
    (offset : Qc) : Locals :=
  adjustVertical (innerHeight w) refRect floatingRect offset
    (adjustHorizontal (innerWidth w) refRect floatingRect offset
       (basePosition placement refRect floatingRect offset)).

(** [refRect] and [floatingRect] are the two [getBoundingClientRect()]
    reads, [w] the reads of [window]. *)
Definition computePosition (w : Window) (refRect floatingRect : Rect)
    (options : Options) : Position :=
  let placement := default "bottom" (placement options) in
  let offset := default 0 (offset options) in
  let l := adjusted w refRect floatingRect placement offset in
  mkPosition (lx l + scrollX w) (ly l + scrollY w).

End FloatingUICore.

(** ** The plugin entry point ([dist/src/anchor.js], lines 231-274) *)

Module Plugin.
Import Js Dom Resolver.

(** How a call of [onLoad] ends: it returns [undefined] or a cleanup
    function, or it raises; either way the page keeps the writes made so
    far. *)
Inductive Outcome : Type :=
| Returned (page : Page) (onRemoval : option Closure)
| Raised (e : Error) (page : Page).

(** Lines 242-247. *)
Definition findTarget (b : Browser) (doc : Document) (target : string)
    : Completion (option NodeRef) :=
  if startsWith "#" target then Normal (getElementById doc (slice 1 target))
  else querySelector b doc target.

Definition withDocument (page : Page) (doc : Document) : Page :=
  mkPage doc (listeners page) (nextClosure page).

Definition onLoad (b : Browser) (page : Page) (el : NodeRef) (value : string) : Outcome :=
  let doc := document page in
  let cfg := parseAnchorConfig (node doc el) value in
  if negb (nonEmpty (target cfg)) then Returned page None
  else
    match findTarget b doc (target cfg) with
    | Throw e => Raised e page
    | Normal None => Returned page None
    | Normal (Some targetElement) =>
        let targetId :=
          orElse (id (node doc targetElement)) ("anchor-" ++ pretty (dateNow b)) in
        let doc :=
          if nonEmpty (id (node doc targetElement)) then doc
          else update (setId targetId) targetElement doc in
        if CssNative.supportsCSSAnchor b then
          let anchorName := CssNative.generateAnchorName targetId in
          let doc := update (setStyle "anchor-name" (text anchorName)) targetElement doc in
          match CssNative.getAnchorCSS anchorName (placement cfg) (offsetValue cfg)
                  (offsetUnit cfg) with
          | Throw e => Raised e (withDocument page doc)
          | Normal anchorStyles =>
              Returned (withDocument page (update (assignStyle anchorStyles) el doc)) None
          end
        else
          let '(page, onRemoval) :=
            Fallback.applyFallbackPositioning b (withDocument page doc) el targetElement
              (placement cfg) (offsetValue cfg) (offsetUnit cfg) in
          Returned page (Some onRemoval)
    end.

End Plugin.

(** ** The documented behaviour, for comparison with the code

    These definitions follow the wording of the specification, not the
    code. *)

Module Documented.
Import Js Dom.
Local Open Scope Qc_scope.

(** The twelve placements: a side and an alignment. *)
Inductive Side : Type := Top | Bottom | Left | Right.
Inductive Alignment : Type := Centred | AtStart | AtEnd.

Definition sideName (s : Side) : string :=
  match s with
  | Top => "top"
  | Bottom => "bottom"
  | Left => "left"
  | Right => "right"
  end.

Definition placementName (s : Side) (a : Alignment) : string :=
  match a with
  | Centred => sideName s
  | AtStart => sideName s ++ "-start"
  | AtEnd => sideName s ++ "-end"
  end.

Definition allPlacements : list string :=
  s ← [Top; Bottom; Left; Right]; a ← [Centred; AtStart; AtEnd]; [placementName s a].

(** A placement string is one of the twelve. *)
Definition recognised (placement : string) : bool :=
  existsb (String.eqb placement) allPlacements.

(** The cross-axis coordinate: centred on the reference, aligned to its
    leading edge, or aligned to its trailing edge. *)
Definition crossAxis (a : Alignment) (refStart refEnd refSize floatSize : Qc) : Qc :=
  match a with
  | Centred => refStart + (refSize - floatSize) / ofZ 2
  | AtStart => refStart
  | AtEnd => refEnd - floatSize
  end.

(** The per-placement formula for [(x, y)]. *)
Definition formula (s : Side) (a : Alignment) (refRect floatingRect : Rect)
    (offset : Qc) : Qc * Qc :=
  let alongX :=
    crossAxis a (left refRect) (right refRect) (width refRect) (width floatingRect) in
  let alongY :=
    crossAxis a (top refRect) (bottom refRect) (height refRect) (height floatingRect) in
  match s with
  | Top => (alongX, top refRect - height floatingRect - offset)
  | Bottom => (alongX, bottom refRect + offset)
  | Left => (left refRect - width floatingRect - offset, alongY)
  | Right => (right refRect + offset, alongY)
  end.

(** An absent or empty literal is unspecified. *)
Definition specified (v : option string) : option string :=
  match v with
  | Some EmptyString => None
  | _ => v
  end.

(** [b] is empty or starts outside the class [p]. *)
Definition headFails (p : ascii -> bool) (b : string) : Prop :=
  match b with
  | EmptyString => True
  | String c _ => p c = false
  end.

(** The shape the offset pattern accepts, with its two groups: digits, an
    optional fraction, optional white space, an optional unit. *)
Definition offsetShape (s g1 g2 : string) : Prop :=
  exists int frac ws : string,
    s = int ++ frac ++ ws ++ g2
    /\ g1 = int ++ frac
    /\ int <> EmptyString /\ allChars isDigit int = true
    /\ (frac = EmptyString
        \/ exists f, frac = String dot f /\ f <> EmptyString /\ allChars isDigit f = true)
    /\ allChars isWhitespace ws = true
    /\ allChars isUnitChar g2 = true.

(** A box lies within [[padding, viewportDimension - padding]] on both
    axes. *)
Definition fits (padding : Qc) (w : Window) (boxLeft boxTop boxWidth boxHeight : Qc)
    : bool :=
  bool_decide (padding <= boxLeft)
  && bool_decide (boxLeft + boxWidth <= innerWidth w - padding)
  && bool_decide (padding <= boxTop)
  && bool_decide (boxTop + boxHeight <= innerHeight w - padding).

(** The ordered fallback list of a placement. *)
Definition fallbackList (placement : string) : list string :=
  switch placement CssNative.fallbacks ["bottom"; "top"; "left"; "right"].

(** The viewport-flip policy: the requested placement when it fits, else
    the first candidate of its fallback list that fits, else the requested
    placement all the same. *)
Definition flipPolicy (fitsAt : string -> bool) (placement : string) : string :=
  if fitsAt placement then placement
  else match List.find fitsAt (fallbackList placement) with
       | Some candidate => candidate
       | None => placement
       end.

(** The share of the floating box by which a [translate] component moves
    it. *)
Definition shift (component : string) : Qc :=
  switch component [ ("-50%", - (1 / ofZ 2)); ("-100%", - 1) ] 0.

(** The floating box of the script fallback: [left] and [top] are set to
    [(x, y)] and [translate] moves the box by shares of its own size. *)
Definition fallbackFits (padding : Qc) (w : Window) (floatingRect : Rect)
    (p : Fallback.Placed) : bool :=
  match split (ascii_of_nat 32) (Fallback.translate p) with
  | [tx; ty] =>
      fits padding w
        (Fallback.x p + shift tx * width floatingRect)
        (Fallback.y p + shift ty * height floatingRect)
        (width floatingRect) (height floatingRect)
  | _ => false
  end.

(** The floating box of the geometry engine: [(x, y)] is its top-left
    corner. *)
Definition engineFits (w : Window) (floatingRect : Rect) (l : FloatingUICore.Locals)
    : bool :=
  fits FloatingUICore.padding w (FloatingUICore.lx l) (FloatingUICore.ly l)
    (width floatingRect) (height floatingRect).

(** Whether the floating box of the script fallback fits when placed at
    [placement]. *)
Definition fallbackFitsAt (padding : Qc) (b : Browser) (doc : Document)
    (el target : NodeRef) (offsetValue : Qc) (offsetUnit : string)
    (placement : string) : bool :=
  fallbackFits padding (window b) (rect (node doc el))
    (Fallback.place (rect (node doc target)) placement
       (Fallback.offsetPx b (node doc el) offsetValue offsetUnit)).

(** The position the viewport-flip policy asks of the script fallback. *)
Definition policyPosition (padding : Qc) (b : Browser) (doc : Document)
    (el target : NodeRef) (placement : string) (offsetValue : Qc)
    (offsetUnit : string) : Fallback.Placed :=
  Fallback.position b doc el target
    (flipPolicy (fallbackFitsAt padding b doc el target offsetValue offsetUnit) placement)
    offsetValue offsetUnit.

(** The position the policy asks of the geometry engine, before scroll. *)
Definition policyLocals (w : Window) (refRect floatingRect : Rect) (placement : string)
    (offset : Qc) : FloatingUICore.Locals :=
  FloatingUICore.basePosition
    (flipPolicy
       (fun p => engineFits w floatingRect
                   (FloatingUICore.basePosition p refRect floatingRect offset))
       placement)
    refRect floatingRect offset.

(** The browser [b] with another viewport size. *)
Definition resized (innerWidth innerHeight : Qc) (b : Browser) : Browser :=
  mkBrowser
    (mkWindow innerWidth innerHeight (scrollX (window b)) (scrollY (window b)))
    (rootFontSize b) (cssSupports b) (dateNow b) (querySelector b).

End Documented.

(** ** Concrete pages and rectangles used in the examples *)

Module Examples.
Import Js Dom.

(** A rectangle from its top-left corner and its size. *)
Definition box (l t wd ht : Z) : Rect :=
  mkRect (ofZ l) (ofZ t) (ofZ (l + wd)) (ofZ (t + ht)) (ofZ wd) (ofZ ht).

Definition viewport (wd ht : Z) : Window := mkWindow (ofZ wd) (ofZ ht) 0%Qc 0%Qc.

(** A floating element that carries the two separate attributes. *)
Definition attributed : Element :=
  mkElement EmptyString
    (<["data-anchor-placement" := "left"]> (<["data-anchor-offset" := "20px"]> ∅))
    ∅ (box 0 0 50 20) (ofZ 16).

(** A browser with native anchor positioning (or without), whose selector
    engine finds nothing. *)
Definition browser (native : bool) : Browser :=
  mkBrowser (viewport 1000 800) (ofZ 16)
    (Some (fun _ _ => native)) 1700000000000
    (fun _ _ => Normal None).

(** A browser whose selector engine rejects every selector. *)
Definition strictBrowser : Browser :=
  mkBrowser (viewport 1000 800) (ofZ 16)
    (Some (fun _ _ => true)) 1700000000000
    (fun _ _ => Throw DOMSyntaxError).

Definition element (name : string) (r : Rect) : Element :=
  mkElement name ∅ ∅ r (ofZ 16).

(** Two targets whose ids differ in one character, and two floating
    elements. *)
Definition twoTargets : Page :=
  mkPage
    [ element "my_button" (box 400 0 200 30);
      element "my-button" (box 400 300 200 30);
      element EmptyString (box 0 0 50 20);
      element EmptyString (box 0 0 50 20) ]
    [] 0.

Definition pageOf (o : Plugin.Outcome) : Page :=
  match o with
  | Plugin.Returned page _ => page
  | Plugin.Raised _ page => page
  end.

End Examples.

(** ** The script fallback with viewport flipping (the later draft of the
    plugin, kept in [src/plugin-loader.ts], lines 1003-1157) *)

Module Flipping.
Import Js Dom.
Local Open Scope Qc_scope.

Definition padding : Qc := ofZ 10.

(** What [calculatePosition] returns. *)
Record Position : Type := mkPosition {
  x : Qc;
  y : Qc;
  placement : string;
}.

(** The unit switch that fills [offsetPx]. *)
Definition offsetPx (b : Browser) (el : Element) (offsetValue : Qc)
    (offsetUnit : string) : Qc :=
  switch offsetUnit
    [ ("rem", offsetValue * rootFontSize b);
      ("em", offsetValue * fontSize el);
      ("vw", offsetValue / ofZ 100 * innerWidth (window b));
      ("vh", offsetValue / ofZ 100 * innerHeight (window b)) ]
    offsetValue.

Definition calculatePosition (targetRect elRect : Rect) (offsetPx : Qc)
    (testPlacement : string) : Position :=
  let centredX := left targetRect + (width targetRect - width elRect) / ofZ 2 in
  let centredY := top targetRect + (height targetRect - height elRect) / ofZ 2 in
  let above := top targetRect - height elRect - offsetPx in
  let below := bottom targetRect + offsetPx in
  let before := left targetRect - width elRect - offsetPx in
  let after := right targetRect + offsetPx in
  let xy :=
    switch testPlacement
      [ ("top", (centredX, above));
        ("top-start", (left targetRect, above));
        ("top-end", (right targetRect - width elRect, above));
        ("bottom", (centredX, below));
        ("bottom-start", (left targetRect, below));
        ("bottom-end", (right targetRect - width elRect, below));
        ("left", (before, centredY));
        ("left-start", (before, top targetRect));
        ("left-end", (before, bottom targetRect - height elRect));
        ("right", (after, centredY));
        ("right-start", (after, top targetRect));
        ("right-end", (after, bottom targetRect - height elRect)) ]
      (centredX, below) in
  mkPosition (fst xy) (snd xy) testPlacement.

Definition isWithinViewport (w : Window) (elRect : Rect) (pos : Position) : bool :=
  bool_decide (padding <= x pos)
  && bool_decide (x pos + width elRect <= innerWidth w - padding)
  && bool_decide (padding <= y pos)
  && bool_decide (y pos + height elRect <= innerHeight w - padding).

(** The own properties of the object literal [fallbacks]. *)
Definition fallbacks : list (string * list string) :=
  [ ("top", ["bottom"; "left"; "right"]);
    ("top-start", ["bottom-start"; "top-end"; "bottom-end"]);
    ("top-end", ["bottom-end"; "top-start"; "bottom-start"]);
    ("bottom", ["top"; "left"; "right"]);
    ("bottom-start", ["top-start"; "bottom-end"; "top-end"]);
    ("bottom-end", ["top-end"; "bottom-start"; "top-start"]);
    ("left", ["right"; "top"; "bottom"]);
    ("left-start", ["right-start"; "left-end"; "right-end"]);
    ("left-end", ["right-end"; "left-start"; "right-start"]);
    ("right", ["left"; "top"; "bottom"]);
    ("right-start", ["left-start"; "right-end"; "left-end"]);
    ("right-end", ["left-end"; "right-start"; "left-start"]) ].

(** [fallbacks[placement]]: an own property, one inherited from
    [Object.prototype], or [undefined]. *)
Definition fallbacksAt (placement : string) : CssNative.Property :=
  switch placement (map (fun '(k, v) => (k, CssNative.Own v)) fallbacks)
    (if existsb (String.eqb placement) CssNative.objectPrototypeNames
     then CssNative.Inherited else CssNative.Undefined).

(** The [for ... of] loop: the first candidate that is within the viewport
    replaces [finalPosition] and ends the loop. *)
Fixpoint tryFallbacks (calculate : string -> Position) (within : Position -> bool)
    (fallbackPlacements : list string) (finalPosition : Position) : Position :=
  match fallbackPlacements with
  | [] => finalPosition
  | fallbackPlacement :: rest =>
      let testPosition := calculate fallbackPlacement in
      if within testPosition then testPosition
      else tryFallbacks calculate within rest finalPosition
  end.

(** [finalPosition] when the loop is over, before the scroll offsets are
    added.  An inherited property is truthy and not iterable, so the loop
    raises. *)
Definition choose (w : Window) (targetRect elRect : Rect) (offsetPx : Qc)
    (placement : string) : Completion Position :=
  let calculate := calculatePosition targetRect elRect offsetPx in
  let finalPosition := calculate placement in
  if negb (isWithinViewport w elRect finalPosition) then
    match fallbacksAt placement with
    | CssNative.Own fallbackPlacements =>
        Normal (tryFallbacks calculate (isWithinViewport w elRect) fallbackPlacements
                  finalPosition)
    | CssNative.Inherited => Throw TypeError
    | CssNative.Undefined =>
        Normal (tryFallbacks calculate (isWithinViewport w elRect)
                  ["bottom"; "top"; "left"; "right"] finalPosition)
    end
  else Normal finalPosition.

(** [el.setAttribute(name, v)] *)
Definition setAttribute (name v : string) (e : Element) : Element :=
  mkElement (id e) (<[name := v]> (attributes e)) (style e) (rect e) (fontSize e).

Definition updatePosition (b : Browser) (doc : Document) (el target : NodeRef)
    (placement : string) (offsetValue : Qc) (offsetUnit : string)
    : Completion Document :=
  let targetRect := rect (node doc target) in
  let elRect := rect (node doc el) in
  let offsetPx := offsetPx b (node doc el) offsetValue offsetUnit in
  match choose (window b) targetRect elRect offsetPx placement with
  | Throw e => Throw e
  | Normal finalPosition =>
      let x := x finalPosition + scrollX (window b) in
      let y := y finalPosition + scrollY (window b) in
      Normal
        (update (fun e =>
                   setAttribute "data-actual-placement" (Flipping.placement finalPosition)
                     (setStyle "top" [Num y; Lit "px"]
                        (setStyle "left" [Num x; Lit "px"]
                           (setStyle "position" (text "absolute") e))))
           el doc)
  end.

(** The first call of [updatePosition], then the two listeners; the
    returned function removes them as [Fallback.cleanup] does. *)
Definition applyFallbackPositioning (b : Browser) (page : Page) (el target : NodeRef)
    (placement : string) (offsetValue : Qc) (offsetUnit : string)
    : Completion (Page * Closure) :=
  match updatePosition b (document page) el target placement offsetValue offsetUnit with
  | Throw e => Throw e
  | Normal doc =>
      let handleUpdate :=
        mkClosure (nextClosure page) el target placement offsetValue offsetUnit in
      Normal
        (mkPage doc
           (listeners page ++ [("scroll", handleUpdate); ("resize", handleUpdate)])%list
           (S (nextClosure page)),
         handleUpdate)
  end.

End Flipping.

(** ** The modifier-key plugin ([dist/anchor.js], lines 138-303)

    Layout is the browser's: the [rect] of a node is what
    [getBoundingClientRect()] answers when the plugin asks, and a style
    write does not recompute it in the model. *)

Module Legacy.
Import Js Dom.

(** [s.endsWith(p)] *)
Fixpoint endsWith (p s : string) : bool :=
  (s =? p)
  || match s with
     | EmptyString => false
     | String _ s' => endsWith p s'
     end.

(** [s.slice(0, -1)] *)
Fixpoint dropLast (s : string) : string :=
  match s with
  | EmptyString => EmptyString
  | String c s' =>
      match s' with
      | EmptyString => EmptyString
      | String _ _ => String c (dropLast s')
      end
  end.

(** [parseInt(s, 10)]: leading white space, an optional sign, then the
    longest run of digits; [None] stands for [NaN].  The model answers the
    whole number the digits denote.  The code answers the double nearest
    to it: the same number for a run of at most 15 digits, a rounded whole
    number beyond 2^53, and [Infinity] (which is not [NaN]) from 2^1024 on,
    that is for runs of more than 308 digits. *)
Definition parseInt (s : string) : option Z :=
  let s := trimStart s in
  let '(sign, s) :=
    match s with
    | String c r =>
        if Ascii.eqb c hyphen then ((-1)%Z, r)
        else if Ascii.eqb c (ascii_of_nat 43) then (1%Z, r)
        else (1%Z, s)
    | EmptyString => (1%Z, s)
    end in
  let digits := fst (span isDigit s) in
  if nonEmpty digits then Some (sign * digitsValue 0 digits)%Z else None.

(** The parsed modifiers. *)
Record AnchorOptions : Type := mkOptions {
  placement : string;
  offsetValue : Qc;
}.

(** The list [positions], the longer names first. *)
Definition positions : list string :=
  [ "top-start"; "top-end"; "bottom-start"; "bottom-end";
    "left-start"; "left-end"; "right-start"; "right-end";
    "top"; "bottom"; "left"; "right" ].

Definition parseModifiers (key : string) : AnchorOptions :=
  let parts := split hyphen key in
  let placement :=
    match List.find (fun position => includes position key) positions with
    | Some position => position
    | None => "bottom"
    end in
  let offsetValue :=
    match findIndex (fun part => part =? "offset") parts with
    | Some offsetIndex =>
        match parts !! S offsetIndex with
        | Some next =>
            if nonEmpty next then
              match parseInt next with
              | Some parsedOffset => ofZ parsedOffset
              | None => ofZ 10
              end
            else ofZ 10
        | None => ofZ 10
        end
    | None => ofZ 10
    end in
  mkOptions placement offsetValue.

(** [evaluateExpression(value)]; [None] is [null]. *)
Definition evaluateExpression (value : string) : option string :=
  if startsWith "'" value && endsWith "'" value then Some (dropLast (slice 1 value))
  else if startsWith "$" value then None
  else Some value.

Definition findTargetElement (b : Browser) (doc : Document) (selector : string)
    : Completion (option NodeRef) :=
  if startsWith "#" selector then Normal (getElementById doc (slice 1 selector))
  else querySelector b doc selector.

Definition prepareFloatingElement (e : Element) : Element :=
  setStyle "zIndex" (text "1000")
    (setStyle "width" (text "max-content")
       (setStyle "left" (text "0")
          (setStyle "top" (text "0")
             (setStyle "position" (text "absolute") e)))).

Definition positionElement (b : Browser) (doc : Document) (element target : NodeRef)
    (options : AnchorOptions) : Document :=
  let position :=
    FloatingUICore.computePosition (window b) (rect (node doc target))
      (rect (node doc element))
      (FloatingUICore.mkOptions (Some (placement options)) (Some (offsetValue options))) in
  update (fun e =>
            setStyle "top" [Num (FloatingUICore.y position); Lit "px"]
              (setStyle "left" [Num (FloatingUICore.x position); Lit "px"] e))
    element doc.

(** An [AutoUpdate] whose listeners are registered: its identity, the
    variables its callback captures, and the observers it could create. *)
Record AutoUpdate : Type := mkAutoUpdate {
  instanceId : nat;
  reference : NodeRef;
  floating : NodeRef;
  options : AnchorOptions;
  resizeObserved : bool;
  mutationObserved : bool;
}.

(** The host: the browser, and whether [window.ResizeObserver] and
    [window.MutationObserver] exist. *)
Record Host : Type := mkHost {
  browser : Browser;
  hasResizeObserver : bool;
  hasMutationObserver : bool;
}.

(** The state the plugin works on. *)
Record State : Type := mkState {
  document : Document;
  (** The instances whose [cleanup] is not [null]: their listeners and
      observers are live. *)
  live : list AutoUpdate;
  (** [autoUpdateInstances], by floating element. *)
  autoUpdateInstances : gmap NodeRef AutoUpdate;
  (** The identity of the next instance created. *)
  nextInstance : nat;
}.

(** [autoUpdate.destroy()] *)
Definition destroy (a : AutoUpdate) (st : State) : State :=
  mkState (document st)
    (List.filter (fun i => negb (Nat.eqb (instanceId i) (instanceId a))) (live st))
    (autoUpdateInstances st) (nextInstance st).

(** [AnchorPlugin.cleanup(element)] *)
Definition cleanup (element : NodeRef) (st : State) : State :=
  match autoUpdateInstances st !! element with
  | Some autoUpdate =>
      let st := destroy autoUpdate st in
      mkState (document st) (live st) (delete element (autoUpdateInstances st))
        (nextInstance st)
  | None => st
  end.

Definition setupAutoUpdate (h : Host) (element target : NodeRef) (options : AnchorOptions)
    (st : State) : State :=
  let st := cleanup element st in
  let autoUpdate :=
    mkAutoUpdate (nextInstance st) target element options (hasResizeObserver h)
      (hasMutationObserver h) in
  mkState (document st) (live st ++ [autoUpdate])%list
    (<[element := autoUpdate]> (autoUpdateInstances st)) (S (nextInstance st)).

(** [apply]: whatever is raised inside is caught and logged. *)
Definition apply (h : Host) (st : State) (element : NodeRef) (key value : string) : State :=
  let options := parseModifiers key in
  match evaluateExpression value with
  | None => st
  | Some targetSelector =>
      if nonEmpty targetSelector then
        match findTargetElement (browser h) (document st) targetSelector with
        | Throw _ => st
        | Normal None => st
        | Normal (Some targetElement) =>
            let doc := update prepareFloatingElement element (document st) in
            let doc := positionElement (browser h) doc element targetElement options in
            setupAutoUpdate h element targetElement options
              (mkState doc (live st) (autoUpdateInstances st) (nextInstance st))
        end
      else st
  end.

(** The instances whose listeners are live are the entries of
    [autoUpdateInstances], each under its own floating element. *)
Definition consistent (st : State) : Prop :=
  (forall element a, autoUpdateInstances st !! element = Some a ->
                     floating a = element /\ In a (live st))
  /\ (forall a, In a (live st) -> autoUpdateInstances st !! floating a = Some a)
  /\ List.NoDup (map instanceId (live st))
  /\ Forall (fun a => (instanceId a < nextInstance st)%nat) (live st).

(** The state before the plugin has run. *)
Definition initial (doc : Document) : State := mkState doc [] ∅ 0.

End Legacy.

(** ** Helpers of the plugin loader ([src/plugin-loader.ts], lines 173-197
    and 359-362) *)

Module Loader.
Import Js.

(** What [getPluginFromAttribute] answers: a plugin name, a member that
    the object literal inherits from [Object.prototype] (truthy, and
    returned as it is), or [null]. *)
Inductive Answer : Type :=
| Name (name : string)
| PrototypeMember
| Null.

(** The own properties of the object literal [exactMatches]. *)
Definition exactMatches : list (string * string) :=
  [ ("data-tooltip", "tooltip");
    ("data-modal", "modal");
    ("data-dropdown", "dropdown") ].

Definition getPluginFromAttribute (attrName : string) : Answer :=
  match switch attrName (map (fun '(k, v) => (k, Some v)) exactMatches) None with
  | Some name => Name name
  | None =>
      if existsb (String.eqb attrName) CssNative.objectPrototypeNames then PrototypeMember
      else if startsWith "data-anchor" attrName then Name "anchor"
      else if startsWith "data-tooltip" attrName then Name "tooltip"
      else if startsWith "data-modal" attrName then Name "modal"
      else Null
  end.

Definition slash : ascii := ascii_of_nat 47.

(** The text after the last slash of [s], if [s] has a slash. *)
Fixpoint afterLastSlash (s : string) : option string :=
  match s with
  | EmptyString => None
  | String c s' =>
      match afterLastSlash s' with
      | Some seg => Some seg
      | None => if Ascii.eqb c slash then Some s' else None
      end
  end.

(** [s] without its ending [suffix], if it ends with it. *)
Fixpoint stripSuffix (suffix s : string) : option string :=
  if s =? suffix then Some EmptyString
  else match s with
       | EmptyString => None
       | String c s' => String c <$> stripSuffix suffix s'
       end.

(** [url.match(re)] and the choice of group 1, for the pattern [re]: a
    slash, group 1 of one or more characters other than a slash, an
    optional [-browser] outside the group, then [.js] at the end of the
    string.  Neither [-browser] nor [.js] holds a slash, so a match starts
    at the last slash; group 1 is greedy and is tried at its longest first,
    so it takes everything up to [.js] and the optional part matches the
    empty string. *)
Definition extractPluginNameFromUrl (url : string) : string :=
  match afterLastSlash url with
  | Some segment =>
      match stripSuffix ".js" segment with
      | Some group1 => if nonEmpty group1 then group1 else "unknown"
      | None => "unknown"
      end
  | None => "unknown"
  end.

End Loader.

(** ** Invariants and derived notions used in the statements *)

Module Invariants.
Import Js Dom.

(** Every registered callback was created before the counter of closures
    reached its present value. *)
Definition wellFormed (page : Page) : Prop :=
  Forall (fun entry => (closureId (snd entry) < nextClosure page)%nat) (listeners page).

(** The alphabet of an anchor name: letters, digits and the hyphen. *)
Definition isNameChar (c : ascii) : bool := isAlnum c || Ascii.eqb c hyphen.

(** A run of digits short enough for its number to be below 2^53, where
    doubles hold every whole number. *)
Definition shortDigits (d : string) : Prop := (String.length d <= 15)%nat.

(** A length in whole pixels, small enough for sums and halves of such
    lengths to be exact in doubles. *)
Definition wholePixel (q : Qc) : Prop :=
  exists z : Z, (- 2 ^ 40 <= z <= 2 ^ 40)%Z /\ q = ofZ z.

(** A layout in whole pixels: the reference rectangle, the size of the
    floating box and the size of the viewport. *)
Definition wholePixels (w : Window) (refRect floatingRect : Rect) : Prop :=
  wholePixel (left refRect) /\ wholePixel (top refRect)
  /\ wholePixel (right refRect) /\ wholePixel (bottom refRect)
  /\ wholePixel (width refRect) /\ wholePixel (height refRect)
  /\ wholePixel (width floatingRect) /\ wholePixel (height floatingRect)
  /\ wholePixel (innerWidth w) /\ wholePixel (innerHeight w).

(** The side across the reference. *)
Definition opposite (s : Documented.Side) : Documented.Side :=
  match s with
  | Documented.Top => Documented.Bottom
  | Documented.Bottom => Documented.Top
  | Documented.Left => Documented.Right
  | Documented.Right => Documented.Left
  end.

(** The id the target has when [onLoad] is over: its own, or the generated
    one. *)
Definition targetIdOf (b : Browser) (page : Page) (targetElement : NodeRef) : string :=
  orElse (id (node (document page) targetElement)) ("anchor-" ++ pretty (dateNow b)).

End Invariants.

(** ** Concrete scenes used in the witnesses *)

Module Scenarios.
Import Js Dom.

(** A reference at the top edge of the window, one at its bottom edge, and
    a floating box. *)
Definition topEdge : Rect := Examples.box 400 0 200 30.
Definition bottomEdge : Rect := Examples.box 400 790 200 30.
Definition floatingBox : Rect := Examples.box 0 0 50 20.

Definition viewport : Window := Examples.viewport 1000 800.

(** The nodes of [Examples.twoTargets]: the targets are nodes 0 and 1, the
    floating elements nodes 2 and 3. *)
Definition nodes : Document := document Examples.twoTargets.

(** A host that has both observers. *)
Definition host : Legacy.Host := Legacy.mkHost (Examples.browser false) true true.

End Scenarios.

(** * Properties *)

(** ** Numbers *)

Lemma ofZ_eq (a b : Qc) : (a == b)%Q -> a = b.
Proof. apply Qc_is_canon. Qed.

Lemma half_of_hundred : (Js.ofZ 50 / Js.ofZ 100 = / Js.ofZ 2)%Qc.
Proof. apply ofZ_eq. reflexivity. Qed.

(** ** The geometry engine: base positions *)

Section BasePosition.
Import Js Dom FloatingUICore Documented.
Local Open Scope Qc_scope.

Variables (refRect floatingRect : Rect) (offset : Qc).

Lemma allPlacements_twelve :
  allPlacements =
    [ "top"; "top-start"; "top-end"; "bottom"; "bottom-start"; "bottom-end";
      "left"; "left-start"; "left-end"; "right"; "right-start"; "right-end" ].
Proof. reflexivity. Qed.

(** C2: for each of the twelve placements the position computed before any
    flip is the documented formula: the centred placements centre the
    floating box on the cross axis, the start placements align it to the
    leading edge of the reference and the end placements to its trailing
    edge; the placement kept is the requested one. *)
Theorem C2_base_position_formula (s : Side) (a : Alignment) :
  let l := basePosition (placementName s a) refRect floatingRect offset in
  (lx l, ly l) = formula s a refRect floatingRect offset
  /\ finalPlacement l = placementName s a.
Proof. destruct s, a; split; reflexivity. Qed.

End BasePosition.

(** When the base box lies between the paddings, nothing is flipped or
    clamped: the engine returns the base position moved by the scroll
    offsets. *)
Lemma computePosition_fits (w : Dom.Window) (refRect floatingRect : Dom.Rect)
    (placement : string) (offset : Qc) :
  let l := FloatingUICore.basePosition placement refRect floatingRect offset in
  Documented.engineFits w floatingRect l = true ->
  FloatingUICore.computePosition w refRect floatingRect
    (FloatingUICore.mkOptions (Some placement) (Some offset))
  = FloatingUICore.mkPosition (FloatingUICore.lx l + Dom.scrollX w)%Qc
      (FloatingUICore.ly l + Dom.scrollY w)%Qc.
Proof.
  intros l Hfit. unfold Documented.engineFits, Documented.fits in Hfit.
  repeat (apply andb_prop in Hfit; destruct Hfit as [Hfit ?]).
  repeat match goal with H : bool_decide _ = true |- _ => apply bool_decide_eq_true in H end.
  unfold FloatingUICore.computePosition, FloatingUICore.adjusted. simpl default.
  fold l.
  assert (Hh : FloatingUICore.adjustHorizontal (Dom.innerWidth w) refRect floatingRect offset l = l).
  { unfold FloatingUICore.adjustHorizontal.
    destruct (decide _) as [Hlt|_].
    - exfalso. eapply Qclt_not_le; eassumption.
    - destruct (decide _) as [Hlt|_]; [|reflexivity].
      exfalso. eapply Qclt_not_le; eassumption. }
  rewrite Hh.
  assert (Hv : FloatingUICore.adjustVertical (Dom.innerHeight w) refRect floatingRect offset l = l).
  { unfold FloatingUICore.adjustVertical.
    destruct (decide _) as [Hlt|_].
    - exfalso. eapply Qclt_not_le; eassumption.
    - destruct (decide _) as [Hlt|_]; [|reflexivity].
      exfalso. eapply Qclt_not_le; eassumption. }
  rewrite Hv. reflexivity.
Qed.

(** C3: reference rect (left 100, top 100, right 200, bottom 130, 100 by
    30), floating rect 50 by 20 wherever it lies, placement top, offset 10:
    the position computed before any flip or scroll adjustment is
    (125, 70); in a window where the box fits and nothing is scrolled, this
    is also what [computePosition] returns. *)
Theorem C3_example_top (l t r b : Qc) :
  let refRect :=
    Dom.mkRect (Js.ofZ 100) (Js.ofZ 100) (Js.ofZ 200) (Js.ofZ 130) (Js.ofZ 100) (Js.ofZ 30) in
  let floatingRect := Dom.mkRect l t r b (Js.ofZ 50) (Js.ofZ 20) in
  FloatingUICore.basePosition "top" refRect floatingRect (Js.ofZ 10)
  = FloatingUICore.mkLocals "top" (Js.ofZ 125) (Js.ofZ 70)
  /\ FloatingUICore.computePosition
       (Dom.mkWindow (Js.ofZ 1024) (Js.ofZ 768) 0%Qc 0%Qc) refRect floatingRect
       (FloatingUICore.mkOptions (Some "top") (Some (Js.ofZ 10)))
     = FloatingUICore.mkPosition (Js.ofZ 125) (Js.ofZ 70).
Proof.
  intros refRect floatingRect.
  assert (Hbase : FloatingUICore.basePosition "top" refRect floatingRect (Js.ofZ 10)
                  = FloatingUICore.mkLocals "top" (Js.ofZ 125) (Js.ofZ 70)).
  { cbv [FloatingUICore.basePosition Js.switch String.eqb Ascii.eqb Bool.eqb
         refRect floatingRect Dom.left Dom.top Dom.width Dom.height].
    f_equal; apply ofZ_eq; reflexivity. }
  split; [exact Hbase|].
  rewrite computePosition_fits; rewrite Hbase; [|reflexivity].
  cbn [FloatingUICore.lx FloatingUICore.ly Dom.scrollX Dom.scrollY].
  f_equal; apply ofZ_eq; reflexivity.
Qed.

(** ** The script fallback: units *)

Section Units.
Import Js Dom Fallback.
Local Open Scope Qc_scope.

Variables (b : Browser) (el : Element).

(** C4: conversion of an offset to pixels. px is the identity; rem
    multiplies by the root font size, so 1rem is that size; em multiplies
    by the font size of the floating element; vw and vh take the value as
    hundredths of the viewport width and height, so 50vw is half the
    width; a percentage is left as the raw number. *)
Theorem C4_unit_conversion (value : Qc) :
  offsetPx b el value "px" = value
  /\ offsetPx b el value "rem" = value * rootFontSize b
  /\ offsetPx b el 1 "rem" = rootFontSize b
  /\ offsetPx b el value "em" = value * fontSize el
  /\ offsetPx b el value "vw" = value / ofZ 100 * innerWidth (window b)
  /\ offsetPx b el value "vh" = value / ofZ 100 * innerHeight (window b)
  /\ offsetPx b el (ofZ 50) "vw" = innerWidth (window b) / ofZ 2
  /\ offsetPx b el value "%" = value.
Proof.
  repeat split; try reflexivity.
  - change (1 * rootFontSize b = rootFontSize b). ring.
  - change (ofZ 50 / ofZ 100 * innerWidth (window b) = innerWidth (window b) / ofZ 2).
    rewrite half_of_hundred. unfold Qcdiv. ring.
Qed.

End Units.

(** ** The geometry engine: flipping and clamping *)

Lemma switch_In {A : Type} (s : string) (cases : list (string * A)) (d : A) :
  Js.switch s cases d = d \/ In (s, Js.switch s cases d) cases.
Proof.
  induction cases as [|[k v] cases IH]; simpl; [now left|].
  destruct (String.eqb_spec s k) as [->|_].
  - right. now left.
  - destruct IH as [IH|IH]; [now left | right; now right].
Qed.

Lemma switch_default {A : Type} (s : string) (cases : list (string * A)) (d : A) :
  ~ In s (map fst cases) -> Js.switch s cases d = d.
Proof.
  induction cases as [|[k v] cases IH]; simpl; [reflexivity|].
  intros Hn. destruct (String.eqb_spec s k) as [->|_].
  - exfalso. apply Hn. now left.
  - apply IH. intros Hin. apply Hn. now right.
Qed.

Section FlipAndClamp.
Import Js Dom FloatingUICore Documented.
Local Open Scope Qc_scope.

Variables (w : Window) (refRect floatingRect : Rect) (offset : Qc).

Lemma effective_placement (placement : string) :
  finalPlacement (basePosition placement refRect floatingRect offset)
  = if recognised placement then placement else "bottom".
Proof.
  unfold recognised. rewrite allPlacements_twelve.
  unfold basePosition, switch, existsb.
  repeat match goal with
         | |- context [String.eqb placement ?k] =>
             destruct (String.eqb_spec placement k) as [->|_]; [reflexivity|]
         end.
  reflexivity.
Qed.

Lemma effective_placement_In (placement : string) :
  In (finalPlacement (basePosition placement refRect floatingRect offset)) allPlacements.
Proof.
  rewrite effective_placement. unfold recognised.
  destruct (existsb _ _) eqn:E.
  - apply existsb_exists in E as (k & Hk & Heq). apply String.eqb_eq in Heq. now subst.
  - rewrite allPlacements_twelve. simpl. tauto.
Qed.

Lemma flips_keep_other_axis (ep : string) :
  In ep allPlacements ->
  includes "top" (replace "left" "right" ep) = includes "top" ep
  /\ includes "top" (replace "right" "left" ep) = includes "top" ep
  /\ includes "bottom" (replace "left" "right" ep) = includes "bottom" ep
  /\ includes "bottom" (replace "right" "left" ep) = includes "bottom" ep.
Proof.
  rewrite allPlacements_twelve. simpl.
  intros H. repeat (destruct H as [<-|H]; [repeat split; reflexivity|]). contradiction.
Qed.

Lemma adjustHorizontal_spec (l : Locals) :
  let out := adjustHorizontal (innerWidth w) refRect floatingRect offset l in
  let fp := finalPlacement l in
  ly out = ly l
  /\ (lx l < padding ->
      lx out = (if includes "left" fp then right refRect + offset else padding)
      /\ finalPlacement out = if includes "left" fp then replace "left" "right" fp else fp)
  /\ (~ lx l < padding -> innerWidth w - padding < lx l + width floatingRect ->
      lx out = (if includes "right" fp then left refRect - width floatingRect - offset
                else innerWidth w - width floatingRect - padding)
      /\ finalPlacement out = if includes "right" fp then replace "right" "left" fp else fp)
  /\ (~ lx l < padding -> ~ innerWidth w - padding < lx l + width floatingRect ->
      out = l).
Proof.
  cbv zeta. unfold adjustHorizontal.
  destruct (decide (lx l < padding)) as [Hl|Hl].
  - destruct (includes "left" (finalPlacement l)); simpl; tauto.
  - destruct (decide (innerWidth w - padding < lx l + width floatingRect)) as [Hr|Hr].
    + destruct (includes "right" (finalPlacement l)); simpl; tauto.
    + tauto.
Qed.

Lemma adjustVertical_spec (l : Locals) :
  let out := adjustVertical (innerHeight w) refRect floatingRect offset l in
  let fp := finalPlacement l in
  lx out = lx l
  /\ (ly l < padding ->
      ly out = (if includes "top" fp then bottom refRect + offset else padding)
      /\ finalPlacement out = if includes "top" fp then replace "top" "bottom" fp else fp)
  /\ (~ ly l < padding -> innerHeight w - padding < ly l + height floatingRect ->
      ly out = (if includes "bottom" fp then top refRect - height floatingRect - offset
                else innerHeight w - height floatingRect - padding)
      /\ finalPlacement out = if includes "bottom" fp then replace "bottom" "top" fp else fp)
  /\ (~ ly l < padding -> ~ innerHeight w - padding < ly l + height floatingRect ->
      out = l).
Proof.
  cbv zeta. unfold adjustVertical.
  destruct (decide (ly l < padding)) as [Hl|Hl].
  - destruct (includes "top" (finalPlacement l)); simpl; tauto.
  - destruct (decide (innerHeight w - padding < ly l + height floatingRect)) as [Hr|Hr].
    + destruct (includes "bottom" (finalPlacement l)); simpl; tauto.
    + tauto.
Qed.

(** The horizontal step leaves the vertical tests as they were. *)
Lemma adjustHorizontal_keeps_vertical (l : Locals) :
  In (finalPlacement l) allPlacements ->
  let out := adjustHorizontal (innerWidth w) refRect floatingRect offset l in
  includes "top" (finalPlacement out) = includes "top" (finalPlacement l)
  /\ includes "bottom" (finalPlacement out) = includes "bottom" (finalPlacement l).
Proof.
  intros Hin. destruct (flips_keep_other_axis _ Hin) as (H1 & H2 & H3 & H4).
  cbv zeta. unfold adjustHorizontal.
  destruct (decide (lx l < padding)) as [_|_].
  - destruct (includes "left" (finalPlacement l)); cbn [finalPlacement]; auto.
  - destruct (decide (innerWidth w - padding < lx l + width floatingRect)) as [_|_];
      [|auto].
    destruct (includes "right" (finalPlacement l)); cbn [finalPlacement]; auto.
Qed.

(** Both steps in turn, from any locals whose placement is one of the
    twelve. *)
Lemma adjust_both (base : Locals) :
  In (finalPlacement base) allPlacements ->
  let ep := finalPlacement base in
  let out :=
    adjustVertical (innerHeight w) refRect floatingRect offset
      (adjustHorizontal (innerWidth w) refRect floatingRect offset base) in
  (lx base < padding ->
     lx out = if includes "left" ep then right refRect + offset else padding)
  /\ (~ lx base < padding -> innerWidth w - padding < lx base + width floatingRect ->
       lx out = if includes "right" ep then left refRect - width floatingRect - offset
                else innerWidth w - width floatingRect - padding)
  /\ (~ lx base < padding -> ~ innerWidth w - padding < lx base + width floatingRect ->
       lx out = lx base)
  /\ (ly base < padding ->
       ly out = if includes "top" ep then bottom refRect + offset else padding)
  /\ (~ ly base < padding -> innerHeight w - padding < ly base + height floatingRect ->
       ly out = if includes "bottom" ep then top refRect - height floatingRect - offset
                else innerHeight w - height floatingRect - padding)
  /\ (~ ly base < padding -> ~ innerHeight w - padding < ly base + height floatingRect ->
       ly out = ly base)
  /\ (finalPlacement out <> ep ->
       (lx base < padding /\ includes "left" ep = true)
       \/ (innerWidth w - padding < lx base + width floatingRect
           /\ includes "right" ep = true)
       \/ (ly base < padding /\ includes "top" ep = true)
       \/ (innerHeight w - padding < ly base + height floatingRect
           /\ includes "bottom" ep = true)).
Proof.
  intros Hin. cbv zeta.
  pose proof (adjustHorizontal_spec base) as (Hy & HL & HR & HN).
  pose proof (adjustHorizontal_keeps_vertical base Hin) as (Ktop & Kbot).
  cbv zeta in Hy, HL, HR, HN, Ktop, Kbot.
  generalize dependent (adjustHorizontal (innerWidth w) refRect floatingRect offset base).
  intros mid Hy HL HR HN Ktop Kbot.
  pose proof (adjustVertical_spec mid) as (Hx & VT & VB & VN).
  cbv zeta in Hx, VT, VB, VN.
  generalize dependent (adjustVertical (innerHeight w) refRect floatingRect offset mid).
  intros out Hx VT VB VN.
  rewrite Hy in VT, VB, VN. rewrite Ktop in VT. rewrite Kbot in VB.
  clear Ktop Kbot Hin.
  destruct base as [ep x0 y0], mid as [mp mx my], out as [op ox oy].
  cbn [finalPlacement lx ly] in *. subst my ox.
  generalize dependent (includes "left" ep). intros iL HL.
  generalize dependent (includes "right" ep). intros iR HR.
  generalize dependent (includes "top" ep). intros iT VT.
  generalize dependent (includes "bottom" ep). intros iB VB.
  generalize dependent (replace "left" "right" ep). intros fL HL.
  generalize dependent (replace "right" "left" ep). intros fR HR.
  generalize dependent (replace "top" "bottom" mp). intros fT VT.
  generalize dependent (replace "bottom" "top" mp). intros fB VB.
  split; [intros H; apply (HL H)|].
  split; [intros H1 H2; apply (HR H1 H2)|].
  split; [intros H1 H2; now injection (HN H1 H2)|].
  split; [intros H; apply (VT H)|].
  split; [intros H1 H2; apply (VB H1 H2)|].
  split; [intros H1 H2; now injection (VN H1 H2)|].
  intros Hne.
  assert (Hmid : mp = ep
                 \/ (x0 < padding /\ iL = true)
                 \/ (innerWidth w - padding < x0 + width floatingRect /\ iR = true)).
  { destruct (decide (x0 < padding)) as [Hl|Hl].
    - destruct (HL Hl) as [_ Hp]. destruct iL; [right; left; now split | now left].
    - destruct (decide (innerWidth w - padding < x0 + width floatingRect)) as [Hr|Hr].
      + destruct (HR Hl Hr) as [_ Hp]. destruct iR; [right; right; now split | now left].
      + left. now injection (HN Hl Hr). }
  assert (Hout : op = mp
                 \/ (y0 < padding /\ iT = true)
                 \/ (innerHeight w - padding < y0 + height floatingRect /\ iB = true)).
  { destruct (decide (y0 < padding)) as [Ht|Ht].
    - destruct (VT Ht) as [_ Hp]. destruct iT; [right; left; now split | now left].
    - destruct (decide (innerHeight w - padding < y0 + height floatingRect)) as [Hb|Hb].
      + destruct (VB Ht Hb) as [_ Hp]. destruct iB; [right; right; now split | now left].
      + left. now injection (VN Ht Hb). }
  destruct Hmid as [Hmid|[Hmid|Hmid]]; [|now left | right; now left].
  destruct Hout as [Hout|[Hout|Hout]];
    [|right; right; now left | right; right; now right].
  exfalso. apply Hne. congruence.
Qed.

(** C9, as the code has it: with the placement the engine works with (an
    unrecognised one counts as bottom), a coordinate below the padding of 5
    is flipped when left (resp. top) occurs in the placement and set to 5
    otherwise; the right (resp. bottom) edge is examined only when that
    first test fails, and then the coordinate is flipped when right (resp.
    bottom) occurs in the placement and set to the viewport size minus the
    floating size minus 5 otherwise; else the coordinate is kept.  The two
    axes do not influence each other, and the placement name changes only
    through such a flip. *)
Theorem C9_clamp_or_flip (placement : string) :
  let base := basePosition placement refRect floatingRect offset in
  let ep := finalPlacement base in
  let out := adjusted w refRect floatingRect placement offset in
  (lx base < padding ->
     lx out = if includes "left" ep then right refRect + offset else padding)
  /\ (~ lx base < padding -> innerWidth w - padding < lx base + width floatingRect ->
       lx out = if includes "right" ep then left refRect - width floatingRect - offset
                else innerWidth w - width floatingRect - padding)
  /\ (~ lx base < padding -> ~ innerWidth w - padding < lx base + width floatingRect ->
       lx out = lx base)
  /\ (ly base < padding ->
       ly out = if includes "top" ep then bottom refRect + offset else padding)
  /\ (~ ly base < padding -> innerHeight w - padding < ly base + height floatingRect ->
       ly out = if includes "bottom" ep then top refRect - height floatingRect - offset
                else innerHeight w - height floatingRect - padding)
  /\ (~ ly base < padding -> ~ innerHeight w - padding < ly base + height floatingRect ->
       ly out = ly base)
  /\ (finalPlacement out <> ep ->
       (lx base < padding /\ includes "left" ep = true)
       \/ (innerWidth w - padding < lx base + width floatingRect
           /\ includes "right" ep = true)
       \/ (ly base < padding /\ includes "top" ep = true)
       \/ (innerHeight w - padding < ly base + height floatingRect
           /\ includes "bottom" ep = true))
  /\ computePosition w refRect floatingRect (mkOptions (Some placement) (Some offset))
     = mkPosition (lx out + scrollX w) (ly out + scrollY w).
Proof.
  cbv zeta. unfold adjusted.
  pose proof (adjust_both _ (effective_placement_In placement)) as H.
  cbv zeta in H. decompose [and] H. repeat (split; [assumption|]). reflexivity.
Qed.

End FlipAndClamp.

(** C9 fails as stated when one coordinate overflows both edges: a floating
    box 1000 wide in a viewport 500 wide, placed on top of a reference at the
    left edge, starts at -450 and ends at 550, beyond the right edge; right
    does not occur in the placement, yet x is set to 5, not to
    500 - 1000 - 5. *)
Lemma C9_both_edges_overflow :
  (Dom.innerWidth (Examples.viewport 500 500) - FloatingUICore.padding
   < FloatingUICore.lx
       (FloatingUICore.basePosition "top" (Examples.box 0 100 100 30)
          (Examples.box 0 0 1000 20) 0)
     + Dom.width (Examples.box 0 0 1000 20))%Qc
  /\ Js.includes "right" "top" = false
  /\ FloatingUICore.x
       (FloatingUICore.computePosition (Examples.viewport 500 500)
          (Examples.box 0 100 100 30) (Examples.box 0 0 1000 20)
          (FloatingUICore.mkOptions (Some "top") (Some 0%Qc)))
     = Js.ofZ 5
  /\ FloatingUICore.x
       (FloatingUICore.computePosition (Examples.viewport 500 500)
          (Examples.box 0 100 100 30) (Examples.box 0 0 1000 20)
          (FloatingUICore.mkOptions (Some "top") (Some 0%Qc)))
     <> (Dom.innerWidth (Examples.viewport 500 500)
         - Dom.width (Examples.box 0 0 1000 20) - FloatingUICore.padding
         + Dom.scrollX (Examples.viewport 500 500))%Qc.
Proof.
  split; [reflexivity|]. split; [reflexivity|]. split.
  - apply ofZ_eq. reflexivity.
  - intros H. apply (f_equal this) in H. vm_compute in H. discriminate H.
Qed.

(** A box 200 wide that starts left of the viewport is set to x = 5. *)
Lemma C9_clamp_or_flip_witness :
  FloatingUICore.lx
    (FloatingUICore.adjusted (Examples.viewport 500 500) (Examples.box 0 100 100 30)
       (Examples.box 0 0 200 20) "top" 0)
  = FloatingUICore.padding.
Proof.
  refine (proj1 (C9_clamp_or_flip (Examples.viewport 500 500) (Examples.box 0 100 100 30)
                   (Examples.box 0 0 200 20) 0 "top") _).
  reflexivity.
Defined.

(** ** Strings *)

Section Strings.
Import Js.

Lemma startsWith_char (c : ascii) (s : string) :
  startsWith (char c) s = match s with String b _ => Ascii.eqb c b | EmptyString => false end.
Proof. destruct s as [|b s]; simpl; [reflexivity|]. now rewrite andb_true_r. Qed.

Lemma includes_char_cons (c b : ascii) (s : string) :
  includes (char c) (String b s) = Ascii.eqb c b || includes (char c) s.
Proof. change (includes (char c) (String b s)) with (startsWith (char c) (String b s) || includes (char c) s).
  now rewrite startsWith_char. Qed.

Lemma includes_char_nil (c : ascii) : includes (char c) EmptyString = false.
Proof. reflexivity. Qed.

Lemma includes_char_app (c : ascii) (a b : string) :
  includes (char c) (a ++ b) = includes (char c) a || includes (char c) b.
Proof.
  induction a as [|x a IH]; [reflexivity|].
  change (String x a ++ b) with (String x (a ++ b)).
  rewrite !includes_char_cons, IH. now rewrite orb_assoc.
Qed.

Lemma split_without (sep : ascii) (a : string) :
  includes (char sep) a = false -> split sep a = [a].
Proof.
  induction a as [|x a IH]; [reflexivity|].
  rewrite includes_char_cons. intros H. apply orb_false_elim in H as [Hx Ha].
  simpl. rewrite Ascii.eqb_sym, Hx. now rewrite (IH Ha).
Qed.

Lemma split_app (sep : ascii) (a b : string) :
  includes (char sep) a = false ->
  split sep (a ++ String sep b) = a :: split sep b.
Proof.
  induction a as [|x a IH]; intros H.
  - simpl. now rewrite Ascii.eqb_refl.
  - rewrite includes_char_cons in H. apply orb_false_elim in H as [Hx Ha].
    change (String x a ++ String sep b) with (String x (a ++ String sep b)).
    simpl. rewrite Ascii.eqb_sym, Hx. now rewrite (IH Ha).
Qed.

End Strings.

(** ** The offset pattern *)

Section Pattern.
Import Js Documented.

Lemma span_spec (p : ascii -> bool) (s : string) :
  s = fst (span p s) ++ snd (span p s)
  /\ allChars p (fst (span p s)) = true
  /\ headFails p (snd (span p s)).
Proof.
  induction s as [|c s (IH1 & IH2 & IH3)]; simpl; [auto|].
  destruct (p c) eqn:E.
  - destruct (span p s) as [a b]. simpl in *. rewrite E, IH2. repeat split; auto.
    subst s. reflexivity.
  - simpl. auto.
Qed.

Lemma span_unique (p : ascii -> bool) (a b : string) :
  allChars p a = true -> headFails p b -> span p (a ++ b) = (a, b).
Proof.
  induction a as [|c a IH]; simpl; intros Ha Hb.
  - destruct b as [|c b]; simpl in *; [reflexivity | now rewrite Hb].
  - apply andb_prop in Ha as [Hc Ha]. now rewrite Hc, (IH Ha Hb).
Qed.

Ltac by_cases_on c :=
  destruct c as [[] [] [] [] [] [] [] []]; vm_compute; congruence.

Lemma whitespace_not_digit (c : ascii) : isWhitespace c = true -> isDigit c = false.
Proof. by_cases_on c. Qed.

Lemma unit_not_digit (c : ascii) : isUnitChar c = true -> isDigit c = false.
Proof. by_cases_on c. Qed.

Lemma unit_not_whitespace (c : ascii) : isUnitChar c = true -> isWhitespace c = false.
Proof. by_cases_on c. Qed.

Lemma whitespace_not_dot (c : ascii) : isWhitespace c = true -> Ascii.eqb c dot = false.
Proof. by_cases_on c. Qed.

Lemma unit_not_dot (c : ascii) : isUnitChar c = true -> Ascii.eqb c dot = false.
Proof. by_cases_on c. Qed.

Lemma dot_class : isDigit dot = false /\ isWhitespace dot = false /\ isUnitChar dot = false.
Proof. now vm_compute. Qed.

Lemma headFails_app (p q : ascii -> bool) (a b : string) :
  (forall c, q c = true -> p c = false) ->
  allChars q a = true -> headFails p b -> headFails p (a ++ b).
Proof.
  intros Hpq Ha Hb. destruct a as [|c a]; [exact Hb|]. simpl in *.
  apply andb_prop in Ha as [Hc _]. now apply Hpq.
Qed.

Lemma headFails_all (p q : ascii -> bool) (a : string) :
  (forall c, q c = true -> p c = false) -> allChars q a = true -> headFails p a.
Proof.
  intros Hpq Ha. destruct a as [|c a]; [exact I|]. simpl in *.
  apply andb_prop in Ha as [Hc _]. now apply Hpq.
Qed.

Lemma append_cons (c : ascii) (a b : string) : String c a ++ b = String c (a ++ b).
Proof. reflexivity. Qed.

Lemma append_nil_r (s : string) : s ++ EmptyString = s.
Proof. induction s as [|c s IH]; [reflexivity|]. now rewrite append_cons, IH. Qed.

Lemma append_assoc (a b c : string) : (a ++ b) ++ c = a ++ b ++ c.
Proof. induction a as [|x a IH]; [reflexivity|]. now rewrite !append_cons, IH. Qed.

Lemma nonEmpty_iff (s : string) : nonEmpty s = true <-> s <> EmptyString.
Proof. destruct s; simpl; split; congruence. Qed.

Lemma matchOffset_complete (s g1 g2 : string) :
  offsetShape s g1 g2 -> matchOffset s = Some (g1, g2).
Proof.
  intros (int & frac & ws & -> & -> & Hne & Hint & Hfrac & Hws & Hu).
  pose proof whitespace_not_digit as Hd_ws.
  pose proof unit_not_digit as Hd_u.
  pose proof unit_not_whitespace as Hw_u.
  assert (Htail : headFails isDigit (ws ++ g2)).
  { apply (headFails_app _ isWhitespace); [assumption..|].
    now apply (headFails_all _ isUnitChar). }
  assert (Hws_span : span isWhitespace (ws ++ g2) = (ws, g2)).
  { apply span_unique; [assumption|]. now apply (headFails_all _ isUnitChar). }
  assert (Hu_span : span isUnitChar g2 = (g2, EmptyString)).
  { rewrite <- (append_nil_r g2) at 1. now apply span_unique. }
  unfold matchOffset.
  destruct Hfrac as [->|(f & -> & Hfne & Hf)].
  - change (EmptyString ++ ws ++ g2) with (ws ++ g2). rewrite (append_nil_r int).
    rewrite (span_unique _ _ _ Hint Htail).
    rewrite (proj2 (nonEmpty_iff _) Hne).
    assert (Hskip : match ws ++ g2 with
                    | String c r =>
                        if Ascii.eqb c dot
                        then let '(frac, r') := span isDigit r in
                             if nonEmpty frac then (int ++ String dot frac, r')
                             else (int, ws ++ g2)
                        else (int, ws ++ g2)
                    | EmptyString => (int, ws ++ g2)
                    end = (int, ws ++ g2)).
    { destruct (ws ++ g2) as [|c r] eqn:E; [reflexivity|].
      assert (Hc : Ascii.eqb c dot = false).
      { destruct ws as [|c' ws'].
        - change (g2 = String c r) in E. subst g2. simpl in Hu. apply andb_prop in Hu as [Hc _].
          now apply unit_not_dot.
        - rewrite append_cons in E. injection E as -> _. simpl in Hws. apply andb_prop in Hws as [Hc _].
          now apply whitespace_not_dot. }
      now rewrite Hc. }
    rewrite Hskip, Hws_span, Hu_span. reflexivity.
  - rewrite append_cons.
    assert (H1 : span isDigit (int ++ String dot (f ++ ws ++ g2))
                 = (int, String dot (f ++ ws ++ g2))).
    { apply span_unique; [assumption|]. simpl. apply dot_class. }
    rewrite H1, (proj2 (nonEmpty_iff _) Hne).
    rewrite Ascii.eqb_refl, (span_unique _ _ _ Hf Htail).
    rewrite (proj2 (nonEmpty_iff _) Hfne), Hws_span, Hu_span. reflexivity.
Qed.


Lemma span_eq (p : ascii -> bool) (s a b : string) :
  span p s = (a, b) -> s = a ++ b /\ allChars p a = true /\ headFails p b.
Proof. intros H. pose proof (span_spec p s) as Hs. now rewrite H in Hs. Qed.

Lemma matchOffset_sound (s g1 g2 : string) :
  matchOffset s = Some (g1, g2) -> offsetShape s g1 g2.
Proof.
  unfold matchOffset.
  destruct (span isDigit s) as [int r1] eqn:E1.
  apply span_eq in E1 as (-> & Hint & _).
  destruct (nonEmpty int) eqn:Hne; [|discriminate].
  apply nonEmpty_iff in Hne.
  assert (Hrest : forall number r2 frac,
             number = int ++ frac -> r1 = frac ++ r2 ->
             (frac = EmptyString
              \/ exists f, frac = String dot f /\ f <> EmptyString /\ allChars isDigit f = true) ->
             (let '(_, r3) := span isWhitespace r2 in
              let '(unit, r4) := span isUnitChar r3 in
              if nonEmpty r4 then None else Some (number, unit)) = Some (g1, g2) ->
             offsetShape (int ++ r1) g1 g2).
  { intros number r2 frac -> -> Hfrac.
    destruct (span isWhitespace r2) as [ws r3] eqn:E3.
    apply span_eq in E3 as (-> & Hws & _).
    destruct (span isUnitChar r3) as [unit r4] eqn:E4.
    apply span_eq in E4 as (-> & Hu & _).
    destruct r4; [|discriminate]. intros [= <- <-].
    exists int, frac, ws. rewrite append_nil_r. repeat split; assumption. }
  destruct r1 as [|c r].
  - apply (Hrest int EmptyString EmptyString); [now rewrite append_nil_r | reflexivity | now left].
  - destruct (Ascii.eqb_spec c dot) as [->|_].
    + destruct (span isDigit r) as [frac r'] eqn:E2.
      apply span_eq in E2 as (-> & Hf & _).
      destruct (nonEmpty frac) eqn:Hfne.
      * apply nonEmpty_iff in Hfne.
        apply (Hrest _ r' (String dot frac)); [reflexivity | reflexivity |].
        right. now exists frac.
      * apply (Hrest int _ EmptyString); [now rewrite append_nil_r | reflexivity | now left].
    + apply (Hrest int _ EmptyString); [now rewrite append_nil_r | reflexivity | now left].
Qed.

(** The matcher accepts exactly the shape of the pattern. *)
Lemma matchOffset_shape (s g1 g2 : string) :
  matchOffset s = Some (g1, g2) <-> offsetShape s g1 g2.
Proof. split; [apply matchOffset_sound | apply matchOffset_complete]. Qed.

End Pattern.

(** ** The resolver *)

Section ResolverFacts.
Import Js Dom Resolver Documented.

Variable el : Element.

Lemma parse_comma (value : string) :
  includes (char comma) (cleanValue value) = true ->
  parseAnchorConfig el value = parseCommaForm (cleanValue value).
Proof. unfold parseAnchorConfig, char. now intros ->. Qed.


Lemma parts_three (t m o : string) :
  includes (char comma) t = false ->
  includes (char comma) m = false ->
  includes (char comma) o = false ->
  parts (t ++ String comma (m ++ String comma o))
  = List.filter nonEmpty [trim t; trim m; trim o].
Proof.
  intros Ht Hm Ho. unfold parts.
  now rewrite (split_app _ _ _ Ht), (split_app _ _ _ Hm), (split_without _ _ Ho).
Qed.

Lemma nonEmpty_true (s : string) : s <> EmptyString -> nonEmpty s = true.
Proof. destruct s; [congruence|reflexivity]. Qed.

Lemma orElse_nonEmpty (s d : string) : s <> EmptyString -> orElse s d = s.
Proof. destruct s; [congruence|reflexivity]. Qed.

(** C10: blank segments are dropped before the roles are handed out, so a
    role goes by position among the segments that are left.  A value with
    three segments whose middle one is blank, like [#t, , 10px], has two
    parts: the third segment becomes the placement and the offset keeps its
    default of 8 and px.  A value that ends in a lone comma, like [#t,], is
    read by the comma branch, and its placement is bottom. *)
Theorem C10_blank_segments :
  (forall value t m o : string,
      cleanValue value = t ++ String comma (m ++ String comma o) ->
      includes (char comma) t = false ->
      includes (char comma) m = false ->
      includes (char comma) o = false ->
      trim t <> EmptyString -> trim m = EmptyString -> trim o <> EmptyString ->
      parts (cleanValue value) = [trim t; trim o]
      /\ parseAnchorConfig el value = mkConfig (trim t) (trim o) (ofZ 8) "px")
  /\ (forall value t : string,
        cleanValue value = t ++ char comma ->
        includes (char comma) t = false ->
        includes (char comma) (cleanValue value) = true
        /\ parseAnchorConfig el value = mkConfig (trim t) "bottom" (ofZ 8) "px").
Proof.
  split.
  - intros value t m o Hv Ht Hm Ho Tt Tm To.
    assert (Hp : parts (cleanValue value) = [trim t; trim o]).
    { rewrite Hv, (parts_three _ _ _ Ht Hm Ho). simpl.
      now rewrite (nonEmpty_true _ Tt), (nonEmpty_true _ To), Tm. }
    split; [exact Hp|].
    rewrite parse_comma.
    + unfold parseCommaForm, commaOffset. rewrite Hp. simpl.
      now rewrite (orElse_nonEmpty _ _ Tt), (orElse_nonEmpty _ _ To).
    + rewrite Hv, includes_char_app, includes_char_cons, Ascii.eqb_refl.
      now rewrite orb_true_r.
  - intros value t Hv Ht.
    assert (Hc : includes (char comma) (cleanValue value) = true).
    { rewrite Hv, includes_char_app. unfold char at 3.
      rewrite includes_char_cons, Ascii.eqb_refl. now rewrite orb_true_r. }
    split; [exact Hc|].
    rewrite (parse_comma _ Hc). unfold parseCommaForm, commaOffset, parts.
    rewrite Hv. unfold char. rewrite (split_app _ _ _ Ht). simpl.
    destruct (trim t) eqn:E; reflexivity.
Qed.





Lemma specified_Some (v : option string) (lit d : string) :
  specified v = Some lit -> v = Some lit /\ lit <> EmptyString /\ orDefault v d = lit.
Proof. destruct v as [[|c s]|]; simpl; try congruence. intros [= <-]. repeat split; congruence. Qed.

Lemma parts_nonEmpty (cv part : string) (i : nat) :
  parts cv !! i = Some part -> nonEmpty part = true.
Proof.
  intros H. apply list_elem_of_lookup_2, list_elem_of_In in H.
  unfold parts in H. now apply filter_In in H.
Qed.

Lemma span_digits (lit : string) :
  allChars isDigit lit = true -> span isDigit lit = (lit, EmptyString).
Proof.
  induction lit as [|c lit IH]; [reflexivity|]. simpl.
  intros H. apply andb_prop in H as [-> H]. now rewrite (IH H).
Qed.

Lemma span_none (p : ascii -> bool) : span p EmptyString = (EmptyString, EmptyString).
Proof. reflexivity. Qed.

Lemma matchOffset_digits (lit : string) :
  lit <> EmptyString -> allChars isDigit lit = true ->
  matchOffset lit = Some (lit, EmptyString) /\ parseFloat lit = ofZ (digitsValue 0 lit).
Proof.
  intros Hne Hd. unfold matchOffset, parseFloat. rewrite (span_digits _ Hd).
  rewrite (nonEmpty_true _ Hne). now rewrite !span_none.
Qed.


End ResolverFacts.

(** [#t, , 10px] and [#t,] on an element without attributes. *)
Lemma C10_blank_segments_witness :
  Resolver.parseAnchorConfig Dom.blank "'#t, , 10px'"
  = Resolver.mkConfig "#t" "10px" (Js.ofZ 8) "px"
  /\ Resolver.parseAnchorConfig Dom.blank "#t,"
     = Resolver.mkConfig "#t" "bottom" (Js.ofZ 8) "px".
Proof.
  split.
  - refine (proj2 (proj1 (C10_blank_segments Dom.blank) "'#t, , 10px'" "#t" " " " 10px"
                     eq_refl eq_refl eq_refl eq_refl _ eq_refl _)); discriminate.
  - exact (proj2 (proj2 (C10_blank_segments Dom.blank) "#t," "#t" eq_refl eq_refl)).
Defined.

(** ** Anchor names and the plugin entry point *)

Section AnchorNames.
Import Js Dom CssNative.

Lemma mapChars_length (f : ascii -> ascii) (s : string) :
  String.length (mapChars f s) = String.length s.
Proof. induction s as [|c s IH]; simpl; congruence. Qed.

(** The anchor name is a function of the id alone, of the documented form. *)
Lemma generateAnchorName_form (targetId : string) :
  generateAnchorName targetId = "--anchor-" ++ mapChars sanitizeChar targetId
  /\ String.length (generateAnchorName targetId) = (9 + String.length targetId)%nat.
Proof.
  split; [reflexivity|]. unfold generateAnchorName.
  change ("--anchor-" ++ mapChars sanitizeChar targetId)
    with (String "-" (String "-" (String "a" (String "n" (String "c" (String "h"
           (String "o" (String "r" (String "-" (mapChars sanitizeChar targetId)))))))))).
  simpl. now rewrite mapChars_length.
Qed.

(** Ids made of letters, digits and hyphens keep their anchor names apart. *)
Lemma generateAnchorName_injective (a b : string) :
  allChars (fun c => isAlnum c || Ascii.eqb c hyphen) a = true ->
  allChars (fun c => isAlnum c || Ascii.eqb c hyphen) b = true ->
  generateAnchorName a = generateAnchorName b -> a = b.
Proof.
  intros Ha Hb H. unfold generateAnchorName in H.
  apply String.app_inj in H.
  assert (Hid : forall s, allChars (fun c => isAlnum c || Ascii.eqb c hyphen) s = true ->
                          mapChars sanitizeChar s = s).
  { induction s as [|c s IH]; [reflexivity|]. simpl. intros Hs.
    apply andb_prop in Hs as [Hc Hs]. rewrite (IH Hs). f_equal.
    unfold sanitizeChar. destruct (isAlnum c); [reflexivity|].
    simpl in Hc. apply Ascii.eqb_eq in Hc. now subst. }
  now rewrite (Hid a Ha), (Hid b Hb) in H.
Qed.

(** C8 breaks on two ids that differ only in characters outside
    [[a-zA-Z0-9]]: both get the anchor name of the hyphenated id, and after
    the plugin has run for a floating element of each, the two targets carry
    the same [anchor-name]. *)
Theorem C8_anchor_names_collide :
  "my_button" <> "my-button"
  /\ generateAnchorName "my_button" = "--anchor-my-button"
  /\ generateAnchorName "my-button" = "--anchor-my-button"
  /\ (let page :=
        Examples.pageOf (Plugin.onLoad (Examples.browser true)
                     (Examples.pageOf (Plugin.onLoad (Examples.browser true) Examples.twoTargets 2
                                   "#my_button, top"))
                     3 "#my-button, top") in
      style (node (document page) 0) !! "anchor-name" = Some (text "--anchor-my-button")
      /\ style (node (document page) 1) !! "anchor-name" = Some (text "--anchor-my-button")).
Proof.
  split; [discriminate|]. split; [reflexivity|]. split; [reflexivity|].
  split; vm_compute; reflexivity.
Qed.

End AnchorNames.

Section NoTarget.
Import Js Dom Resolver Plugin.

Variables (b : Browser) (page : Page) (el : NodeRef) (value : string).

(** An id lookup never raises. *)
Lemma findTarget_id (doc : Document) (name : string) :
  findTarget b doc (String "#" name) = Normal (getElementById doc name).
Proof. reflexivity. Qed.





End NoTarget.



(** ** The earlier draft and the viewport-flip policy *)

Section FlipPolicy.
Import Js Dom CssNative Documented.
Local Open Scope Qc_scope.

(** The earlier draft ([dist/src/anchor.js]) only renders the ordered
    fallback list of each of the twelve placements, as the
    [position-try-options] value that the CSS-native path hands to the
    browser.  Its script fallback makes no viewport test: for an offset not
    in vw or vh the position it computes does not change with the viewport
    size, and it is always the position of the requested placement moved
    by the scroll offsets, in or out of bounds. *)
Lemma earlier_draft_renders_the_lists :
  map (fun p => (p, getPositionTryOptions p)) allPlacements
  = [ ("top", Normal "flip-bottom, flip-left, flip-right");
      ("top-start", Normal "flip-bottom-start, flip-top-end, flip-bottom-end");
      ("top-end", Normal "flip-bottom-end, flip-top-start, flip-bottom-start");
      ("bottom", Normal "flip-top, flip-left, flip-right");
      ("bottom-start", Normal "flip-top-start, flip-bottom-end, flip-top-end");
      ("bottom-end", Normal "flip-top-end, flip-bottom-start, flip-top-start");
      ("left", Normal "flip-right, flip-top, flip-bottom");
      ("left-start", Normal "flip-right-start, flip-left-end, flip-right-end");
      ("left-end", Normal "flip-right-end, flip-left-start, flip-right-start");
      ("right", Normal "flip-left, flip-top, flip-bottom");
      ("right-start", Normal "flip-left-start, flip-right-end, flip-left-end");
      ("right-end", Normal "flip-left-end, flip-right-start, flip-left-start") ]
  /\ (forall (b : Browser) (doc : Document) (el target : NodeRef) (placement : string)
             (offsetValue : Qc) (offsetUnit : string) (innerWidth innerHeight : Qc),
        offsetUnit <> "vw" -> offsetUnit <> "vh" ->
        Fallback.position (resized innerWidth innerHeight b) doc el target placement
          offsetValue offsetUnit
        = Fallback.position b doc el target placement offsetValue offsetUnit)
  /\ (forall (b : Browser) (doc : Document) (el target : NodeRef) (placement : string)
             (offsetValue : Qc) (offsetUnit : string),
        let p := Fallback.place (rect (node doc target)) placement
                   (Fallback.offsetPx b (node doc el) offsetValue offsetUnit) in
        Fallback.position b doc el target placement offsetValue offsetUnit
        = Fallback.mkPlaced (Fallback.x p + scrollX (window b))
            (Fallback.y p + scrollY (window b)) (Fallback.translate p)).
Proof.
  split; [reflexivity|]. split; [|reflexivity].
  intros b doc el target placement offsetValue offsetUnit iw ih Hvw Hvh.
  unfold Fallback.position. 
  assert (Hpx : Fallback.offsetPx (resized iw ih b) (node doc el) offsetValue offsetUnit
                = Fallback.offsetPx b (node doc el) offsetValue offsetUnit).
  { unfold Fallback.offsetPx, switch.
    destruct (String.eqb_spec offsetUnit "rem"); [reflexivity|].
    destruct (String.eqb_spec offsetUnit "em"); [reflexivity|].
    destruct (String.eqb_spec offsetUnit "vw"); [contradiction|].
    destruct (String.eqb_spec offsetUnit "vh"); [contradiction|]. reflexivity. }
  rewrite Hpx. reflexivity.
Qed.

(** The earlier draft does not flip: a reference at the top edge of an
    1000 by 800 viewport, placement top, offset 8px, floating box 50 by 20.
    On top the box would start at y = -28; below, the first candidate of
    the list, it fits, so the policy answers (500, 38); the script fallback
    of the earlier draft answers the position on top, (500, -8). *)
Lemma earlier_draft_keeps_primary :
  fallbackFitsAt (ofZ 5) (Examples.browser false) (document Examples.twoTargets) 2%nat 0%nat (ofZ 8) "px" "top"
  = false
  /\ flipPolicy
       (fallbackFitsAt (ofZ 5) (Examples.browser false) (document Examples.twoTargets) 2%nat 0%nat (ofZ 8) "px")
       "top"
     = "bottom"
  /\ policyPosition (ofZ 5) (Examples.browser false) (document Examples.twoTargets) 2%nat 0%nat "top"
       (ofZ 8) "px"
     = Fallback.mkPlaced (ofZ 500) (ofZ 38) "-50% 0"
  /\ Fallback.position (Examples.browser false) (document Examples.twoTargets) 2%nat 0%nat "top" (ofZ 8) "px"
     = Fallback.mkPlaced (ofZ 500) (ofZ (-8)) "-50% -100%"
  /\ Fallback.position (Examples.browser false) (document Examples.twoTargets) 2%nat 0%nat "top" (ofZ 8) "px"
     <> policyPosition (ofZ 5) (Examples.browser false) (document Examples.twoTargets) 2%nat 0%nat "top"
          (ofZ 8) "px".
Proof.
  split; [vm_compute; reflexivity|]. split; [vm_compute; reflexivity|].
  split; [vm_compute; reflexivity|]. split; [vm_compute; reflexivity|].
  intros H. apply (f_equal Fallback.translate) in H. vm_compute in H. discriminate H.
Qed.

(** The geometry engine of the modifier-key draft does not follow the
    policy either: a box 100 wide centred on a reference 20 wide at the left edge
    fits to the right of it, the third candidate for top; the engine keeps
    top and sets x to 5. *)
Lemma engine_clamps_where_policy_flips :
  policyLocals (Examples.viewport 1000 800) (Examples.box 0 300 20 30)
    (Examples.box 0 0 100 20) "top" (ofZ 8)
  = FloatingUICore.mkLocals "right" (ofZ 28) (ofZ 305)
  /\ FloatingUICore.adjusted (Examples.viewport 1000 800) (Examples.box 0 300 20 30)
       (Examples.box 0 0 100 20) "top" (ofZ 8)
     = FloatingUICore.mkLocals "top" (ofZ 5) (ofZ 272).
Proof. split; vm_compute; reflexivity. Qed.

End FlipPolicy.

(** In the earlier draft, shrinking the viewport to 10 by 10 leaves the
    position on top as it was. *)
Lemma earlier_draft_ignores_the_viewport :
  Fallback.position (Documented.resized (Js.ofZ 10) (Js.ofZ 10) (Examples.browser false))
    (Dom.document Examples.twoTargets) 2%nat 0%nat "top" (Js.ofZ 8) "px"
  = Fallback.position (Examples.browser false)
      (Dom.document Examples.twoTargets) 2%nat 0%nat "top" (Js.ofZ 8) "px".
Proof.
  refine (proj1 (proj2 earlier_draft_renders_the_lists) _ _ _ _ _ _ _ _ _ _ _);
    discriminate.
Qed.

(** * Further properties of the code *)

(** ** Linear arithmetic on JavaScript numbers *)

Lemma this_plus (a b : Qc) : (this (a + b) == this a + this b)%Q.
Proof. apply Qred_correct. Qed.

Lemma this_opp (a : Qc) : (this (- a) == - this a)%Q.
Proof. apply Qred_correct. Qed.

Lemma this_minus (a b : Qc) : (this (a - b) == this a - this b)%Q.
Proof. unfold Qcminus. rewrite this_plus, this_opp. reflexivity. Qed.

Lemma this_mult (a b : Qc) : (this (a * b) == this a * this b)%Q.
Proof. apply Qred_correct. Qed.

Lemma this_ofZ (z : Z) : (this (Js.ofZ z) == inject_Z z)%Q.
Proof. apply Qred_correct. Qed.

Lemma this_zero : (this 0%Qc == 0)%Q.
Proof. reflexivity. Qed.

Lemma this_inv (a : Qc) : (this (/ a) == / this a)%Q.
Proof. apply Qred_correct. Qed.

Ltac qc_lra :=
  unfold Qcle, Qclt in *;
  repeat match goal with
         | H : context [this (_ + _)] |- _ => rewrite this_plus in H
         | H : context [this (_ - _)] |- _ => rewrite this_minus in H
         | H : context [this (- _)] |- _ => rewrite this_opp in H
         | H : context [this (Js.ofZ _)] |- _ => rewrite this_ofZ in H
         | H : context [this 0%Qc] |- _ => rewrite this_zero in H
         | |- context [this 0%Qc] => rewrite this_zero
         | |- context [this (_ + _)] => rewrite this_plus
         | |- context [this (_ - _)] => rewrite this_minus
         | |- context [this (- _)] => rewrite this_opp
         | |- context [this (Js.ofZ _)] => rewrite this_ofZ
         end;
  lra.

(** ** Nodes behind handles *)

Section Nodes.
Import Js Dom.

Lemma node_update_eq (f : Element -> Element) (doc : Document) (n : NodeRef) :
  is_Some (doc !! n) -> node (update f n doc) n = f (node doc n).
Proof.
  intros [e He]. unfold node, update, NodeRef, Document in *.
  now rewrite list_lookup_alter_eq, He.
Qed.

Lemma node_update_ne (f : Element -> Element) (doc : Document) (n m : NodeRef) :
  n <> m -> node (update f n doc) m = node doc m.
Proof.
  intros Hne. unfold node, update, NodeRef, Document in *.
  now rewrite list_lookup_alter_ne.
Qed.

Lemma lookup_update_ne (f : Element -> Element) (doc : Document) (n m : NodeRef) :
  n <> m -> update f n doc !! m = doc !! m.
Proof.
  intros Hne. unfold update, NodeRef, Document in *. now rewrite list_lookup_alter_ne.
Qed.

Lemma length_update (f : Element -> Element) (doc : Document) (n : NodeRef) :
  length (update f n doc) = length doc.
Proof. unfold update. apply length_alter. Qed.

Lemma update_is_Some (f : Element -> Element) (doc : Document) (n m : NodeRef) :
  is_Some (update f n doc !! m) <-> is_Some (doc !! m).
Proof.
  unfold update, NodeRef, Document in *.
  rewrite !lookup_lt_is_Some. now rewrite length_alter.
Qed.

(** A write through a handle outside the document changes nothing. *)
Lemma node_update_dangling (f : Element -> Element) (doc : Document) (n m : NodeRef) :
  doc !! n = None -> node (update f n doc) m = node doc m.
Proof.
  intros Hn. destruct (decide (n = m)) as [<-|Hne]; [|now apply node_update_ne].
  unfold node, update, NodeRef, Document in *.
  now rewrite list_lookup_alter_eq, Hn.
Qed.

(** A mutation that keeps rectangles, font sizes and ids keeps them in the
    whole document. *)
Lemma node_update_layout (f : Element -> Element) (doc : Document) (n m : NodeRef) :
  (forall e, rect (f e) = rect e /\ fontSize (f e) = fontSize e /\ id (f e) = id e) ->
  rect (node (update f n doc) m) = rect (node doc m)
  /\ fontSize (node (update f n doc) m) = fontSize (node doc m)
  /\ id (node (update f n doc) m) = id (node doc m).
Proof.
  intros Hf. destruct (decide (n = m)) as [<-|Hne].
  - destruct (doc !! n) as [e|] eqn:He.
    + rewrite node_update_eq by eauto. apply Hf.
    + rewrite node_update_dangling by assumption. auto.
  - now rewrite node_update_ne.
Qed.

Lemma update_update (f : Element -> Element) (doc : Document) (n : NodeRef) :
  (forall e, f (f e) = f e) -> update f n (update f n doc) = update f n doc.
Proof.
  intros Hf. unfold update, NodeRef, Document in *.
  apply list_eq. intros i. destruct (decide (n = i)) as [<-|Hne].
  - rewrite !list_lookup_alter_eq. destruct (doc !! n); simpl; [now rewrite Hf | reflexivity].
  - now rewrite !list_lookup_alter_ne.
Qed.

End Nodes.

(** ** The script fallback with viewport flipping *)

Section FlippingDraft.
Import Js Dom Documented Flipping.
Local Open Scope Qc_scope.

Lemma switch_own {A B : Type} (own : A -> B) (s : string) (cases : list (string * A))
    (d : B) (d' : A) :
  (forall a, d <> own a) ->
  (Js.switch s (map (fun '(k, v) => (k, own v)) cases) d = d
   /\ Js.switch s cases d' = d')
  \/ (exists a, Js.switch s (map (fun '(k, v) => (k, own v)) cases) d = own a
              /\ Js.switch s cases d' = a).
Proof.
  intros Hd. induction cases as [|[k v] cases IH]; simpl.
  - now left.
  - destruct (s =? k); [right; now exists v | exact IH].
Qed.

(** The table of this draft is the documented list of candidates. *)
Lemma fallbacksAt_list (placement : string) :
  match fallbacksAt placement with
  | CssNative.Own l => fallbackList placement = l
  | CssNative.Inherited => In placement CssNative.objectPrototypeNames
  | CssNative.Undefined =>
      fallbackList placement = ["bottom"; "top"; "left"; "right"]
  end.
Proof.
  unfold fallbacksAt, fallbackList.
  change CssNative.fallbacks with fallbacks.
  destruct (existsb (String.eqb placement) CssNative.objectPrototypeNames) eqn:E.
  - destruct (switch_own CssNative.Own placement fallbacks CssNative.Inherited
                ["bottom"; "top"; "left"; "right"]) as [[-> _]|(a & -> & Ha)];
      [discriminate | | exact Ha].
    apply existsb_exists in E as (k & Hk & Heq). apply String.eqb_eq in Heq. now subst.
  - destruct (switch_own CssNative.Own placement fallbacks CssNative.Undefined
                ["bottom"; "top"; "left"; "right"]) as [[-> H]|(a & -> & Ha)];
      [discriminate | exact H | exact Ha].
Qed.

(** The loop is a search for the first candidate that fits. *)
Lemma tryFallbacks_find (calculate : string -> Position) (within : Position -> bool)
    (l : list string) (finalPosition : Position) :
  tryFallbacks calculate within l finalPosition
  = match List.find (fun p => within (calculate p)) l with
    | Some candidate => calculate candidate
    | None => finalPosition
    end.
Proof.
  induction l as [|p l IH]; simpl; [reflexivity|].
  now destruct (within (calculate p)).
Qed.

Variables (w : Window) (targetRect elRect : Rect) (offsetPx : Qc).

(** Outside the names of [Object.prototype], the loop runs over the
    documented list of the placement. *)
Lemma choose_search (placement : string) :
  ~ In placement CssNative.objectPrototypeNames ->
  let calculate := calculatePosition targetRect elRect offsetPx in
  choose w targetRect elRect offsetPx placement
  = Normal
      (if isWithinViewport w elRect (calculate placement) then calculate placement
       else match List.find (fun p => isWithinViewport w elRect (calculate p))
                    (fallbackList placement) with
            | Some candidate => calculate candidate
            | None => calculate placement
            end).
Proof.
  intros Hn. cbv zeta. unfold choose.
  destruct (isWithinViewport w elRect (calculatePosition targetRect elRect offsetPx placement));
    cbn [negb]; [reflexivity|].
  pose proof (fallbacksAt_list placement) as H.
  destruct (fallbacksAt placement) as [l| |]; [| contradiction |];
    now rewrite H, tryFallbacks_find.
Qed.

(** X1: the later draft of the script fallback places the floating
    element as the documented viewport-flip policy asks, with a padding of
    10: the requested placement if it fits, else the first candidate of
    the placement's list that fits, else the requested placement.  This
    holds for every placement string that is not the name of a member of
    [Object.prototype]. *)
Theorem flipping_follows_policy (placement : string) :
  ~ In placement CssNative.objectPrototypeNames ->
  choose w targetRect elRect offsetPx placement
  = Normal
      (calculatePosition targetRect elRect offsetPx
         (flipPolicy
            (fun p => isWithinViewport w elRect
                        (calculatePosition targetRect elRect offsetPx p))
            placement)).
Proof.
  intros Hn. rewrite (choose_search placement Hn). cbv zeta. unfold flipPolicy.
  destruct (isWithinViewport w elRect (calculatePosition targetRect elRect offsetPx placement));
    [reflexivity|].
  now destruct (List.find _ _).
Qed.

(** X2: whatever position the flipping draft settles on is the position
    of the requested placement or of one of its candidates, computed by
    [calculatePosition]; it lies within the padded viewport, unless
    neither the requested placement nor any candidate does, and then it is
    the requested placement. *)
Theorem flipping_result_fits (placement : string) (pos : Position) :
  choose w targetRect elRect offsetPx placement = Normal pos ->
  In (Flipping.placement pos) (placement :: fallbackList placement)
  /\ pos = calculatePosition targetRect elRect offsetPx (Flipping.placement pos)
  /\ (isWithinViewport w elRect pos = true
      \/ (Flipping.placement pos = placement
          /\ forall p, In p (placement :: fallbackList placement) ->
                       isWithinViewport w elRect
                         (calculatePosition targetRect elRect offsetPx p) = false)).
Proof.
  unfold choose.
  set (calculate := calculatePosition targetRect elRect offsetPx).
  set (within := isWithinViewport w elRect).
  assert (Hloop : forall l, fallbackList placement = l ->
            within (calculate placement) = false ->
            Normal (tryFallbacks calculate within l (calculate placement)) = Normal pos ->
            In (Flipping.placement pos) (placement :: l)
            /\ pos = calculate (Flipping.placement pos)
            /\ (within pos = true
                \/ (Flipping.placement pos = placement
                    /\ forall p, In p (placement :: l) -> within (calculate p) = false))).
  { intros l _ Hp [= <-]. rewrite tryFallbacks_find.
    destruct (List.find _ l) as [c|] eqn:E.
    - apply find_some in E as [Hin Hc]. repeat split; [now right | now left].
    - repeat split; [now left|]. right. split; [reflexivity|].
      intros p [<-|Hin]; [exact Hp|]. exact (find_none _ _ E p Hin). }
  destruct (within (calculate placement)) eqn:Hp; cbn [negb].
  - intros [= <-]. repeat split; [now left | now left].
  - pose proof (fallbacksAt_list placement) as H.
    destruct (fallbacksAt placement) as [l| |]; [| discriminate |];
      intros Hc; rewrite H; now apply Hloop.
Qed.

(** X3: a placement string that names a member of [Object.prototype]
    (such as constructor) is positioned like bottom while that position
    fits; once it does not fit, the lookup in the table answers the
    inherited member, the loop over it raises a [TypeError], and nothing
    is written. *)
Theorem flipping_inherited_name (placement : string) :
  In placement CssNative.objectPrototypeNames ->
  choose w targetRect elRect offsetPx placement
  = if isWithinViewport w elRect (calculatePosition targetRect elRect offsetPx placement)
    then Normal (calculatePosition targetRect elRect offsetPx placement)
    else Throw TypeError.
Proof.
  intros Hin. unfold choose.
  assert (fallbacksAt placement = CssNative.Inherited) as ->.
  { simpl in Hin. repeat (destruct Hin as [<-|Hin]; [reflexivity|]). contradiction. }
  now destruct (isWithinViewport _ _ _).
Qed.

(** X4: the flipping draft and the geometry engine compute the same
    coordinates for every placement string before any flip or clamp: both
    measure the floating box, unlike the simple fallback, which leaves the
    alignment to a CSS translate. *)
Theorem drafts_agree_on_coordinates (placement : string) :
  Flipping.x (calculatePosition targetRect elRect offsetPx placement)
  = FloatingUICore.lx (FloatingUICore.basePosition placement targetRect elRect offsetPx)
  /\ Flipping.y (calculatePosition targetRect elRect offsetPx placement)
     = FloatingUICore.ly (FloatingUICore.basePosition placement targetRect elRect offsetPx).
Proof.
  unfold calculatePosition, FloatingUICore.basePosition, switch.
  repeat match goal with
         | |- context [String.eqb placement ?k] =>
             destruct (String.eqb_spec placement k) as [->|_]; [split; reflexivity|]
         end.
  split; reflexivity.
Qed.

End FlippingDraft.

Lemma not_a_prototype_name_top : ~ In "top" CssNative.objectPrototypeNames.
Proof. cbn. intuition discriminate. Qed.

(** A reference at the top edge: the box does not fit above it, and the
    first candidate, below it, is taken. *)
Lemma flipping_follows_policy_witness :
  Flipping.choose Scenarios.viewport Scenarios.topEdge Scenarios.floatingBox (Js.ofZ 8) "top"
  = Js.Normal
      (Flipping.calculatePosition Scenarios.topEdge Scenarios.floatingBox (Js.ofZ 8) "bottom").
Proof.
  rewrite (flipping_follows_policy Scenarios.viewport Scenarios.topEdge Scenarios.floatingBox
             (Js.ofZ 8) "top" not_a_prototype_name_top).
  vm_compute. reflexivity.
Defined.

Lemma flipping_result_fits_witness :
  In "bottom" ("top" :: Documented.fallbackList "top")
  /\ Flipping.isWithinViewport Scenarios.viewport Scenarios.floatingBox
       (Flipping.calculatePosition Scenarios.topEdge Scenarios.floatingBox (Js.ofZ 8) "bottom")
     = true.
Proof.
  destruct (flipping_result_fits Scenarios.viewport Scenarios.topEdge Scenarios.floatingBox
              (Js.ofZ 8) "top"
              (Flipping.calculatePosition Scenarios.topEdge Scenarios.floatingBox (Js.ofZ 8)
                 "bottom"))
    as (Hin & _ & _); [vm_compute; reflexivity|].
  split; [exact Hin | vm_compute; reflexivity].
Defined.

(** A reference at the bottom edge and the placement constructor. *)
Lemma flipping_inherited_name_witness :
  Flipping.choose Scenarios.viewport Scenarios.bottomEdge Scenarios.floatingBox (Js.ofZ 8)
    "constructor"
  = Js.Throw Js.TypeError.
Proof.
  rewrite (flipping_inherited_name Scenarios.viewport Scenarios.bottomEdge
             Scenarios.floatingBox (Js.ofZ 8) "constructor").
  - vm_compute. reflexivity.
  - cbn. tauto.
Defined.

(** ** The viewport-flip policy *)

Section ViewportFlipPolicy.
Import Js Dom Documented Flipping Invariants.
Local Open Scope Qc_scope.

Variables (w : Window) (targetRect elRect : Rect) (offsetPx : Qc).

Lemma twelve_are_no_prototype_names (s : Side) (a : Alignment) :
  ~ In (placementName s a) CssNative.objectPrototypeNames.
Proof. destruct s, a; cbn; intuition discriminate. Qed.

(** C1: the fallback positioner of the later draft
    ([src/plugin-loader.ts], lines 1003-1157) follows the viewport-flip
    policy, with a padding of 10, for each of the twelve placements.  It
    computes the position of the requested placement; when the floating
    box at that position lies within [padding, viewportDimension -
    padding] on both axes, that position is the result.  Otherwise it goes
    through the ordered list of the requested placement (for top: bottom,
    left, right; for top-start: bottom-start, top-end, bottom-end; for
    every placement three candidates among the twelve, the first of them
    the opposite side with the same alignment) and the result is the
    position of the first candidate whose box fits on both axes.  When no
    candidate fits the result is the position of the requested placement,
    out of bounds; nothing is raised. *)
Theorem C1_viewport_flip_policy (s : Side) (a : Alignment) :
  let placement := placementName s a in
  let calculate := calculatePosition targetRect elRect offsetPx in
  let fitsAt := fun p =>
    fits padding w (x (calculate p)) (y (calculate p)) (width elRect) (height elRect) in
  choose w targetRect elRect offsetPx placement
  = Normal (calculate (flipPolicy fitsAt placement))
  /\ (fitsAt placement = true ->
      choose w targetRect elRect offsetPx placement = Normal (calculate placement))
  /\ (forall before candidate after,
        fitsAt placement = false ->
        fallbackList placement = (before ++ candidate :: after)%list ->
        Forall (fun c => fitsAt c = false) before -> fitsAt candidate = true ->
        choose w targetRect elRect offsetPx placement = Normal (calculate candidate))
  /\ (fitsAt placement = false ->
      Forall (fun c => fitsAt c = false) (fallbackList placement) ->
      choose w targetRect elRect offsetPx placement = Normal (calculate placement))
  /\ fallbackList "top" = ["bottom"; "left"; "right"]
  /\ fallbackList "top-start" = ["bottom-start"; "top-end"; "bottom-end"]
  /\ length (fallbackList placement) = 3%nat
  /\ Forall (fun c => recognised c = true /\ c <> placement) (fallbackList placement)
  /\ head (fallbackList placement) = Some (placementName (opposite s) a).
Proof.
  cbv zeta.
  set (calculate := calculatePosition targetRect elRect offsetPx).
  set (fitsAt := fun p => fits padding w (x (calculate p)) (y (calculate p))
                            (width elRect) (height elRect)).
  assert (Hrun : choose w targetRect elRect offsetPx (placementName s a)
                 = Normal (calculate (flipPolicy fitsAt (placementName s a)))).
  { rewrite (choose_search w targetRect elRect offsetPx _
               (twelve_are_no_prototype_names s a)).
    cbv zeta. unfold flipPolicy. fold calculate.
    change (fun p => isWithinViewport w elRect (calculate p)) with fitsAt.
    change (isWithinViewport w elRect (calculate (placementName s a)))
      with (fitsAt (placementName s a)).
    destruct (fitsAt (placementName s a)); [reflexivity|].
    now destruct (List.find fitsAt _). }
  split; [exact Hrun|]. rewrite Hrun. unfold flipPolicy.
  split; [now intros ->|]. split; [|split].
  - intros before candidate after -> -> Hbefore Hfit.
    assert (Hfind : List.find fitsAt (before ++ candidate :: after)%list = Some candidate).
    { clear Hrun. induction Hbefore as [|c l Hc _ IH]; simpl; [now rewrite Hfit|].
      now rewrite Hc. }
    now rewrite Hfind.
  - intros -> Hnone.
    assert (Hfind : List.find fitsAt (fallbackList (placementName s a)) = None).
    { clear Hrun. induction Hnone as [|c l Hc _ IH]; simpl; [reflexivity|].
      now rewrite Hc. }
    now rewrite Hfind.
  - split; [reflexivity|]. split; [reflexivity|]. clear Hrun.
    destruct s, a; (split; [reflexivity|]);
      (split; [repeat constructor; discriminate | reflexivity]).
Qed.

End ViewportFlipPolicy.

(** A reference at the top edge of an 1000 by 800 viewport, placement top,
    offset 8px, floating box 50 by 20: on top the box would start at
    y = -28, so the first candidate, bottom, is taken, at (475, 38). *)
Lemma C1_viewport_flip_policy_witness :
  Flipping.choose Scenarios.viewport Scenarios.topEdge Scenarios.floatingBox (Js.ofZ 8) "top"
  = Js.Normal (Flipping.mkPosition (Js.ofZ 475) (Js.ofZ 38) "bottom").
Proof.
  refine (eq_trans
            (proj1 (C1_viewport_flip_policy Scenarios.viewport Scenarios.topEdge
                      Scenarios.floatingBox (Js.ofZ 8) Documented.Top Documented.Centred))
            _).
  vm_compute. reflexivity.
Defined.

Section FlippingPage.
Import Js Dom Documented Flipping.
Local Open Scope Qc_scope.

Variables (b : Browser) (doc : Document) (el target : NodeRef).
Variables (placement : string) (offsetValue : Qc) (offsetUnit : string).

(** X5: one pass of the flipping draft over a live floating element
    writes the position of the placement the policy chooses, moved by the
    scroll offsets, as [position], [left] and [top], and records that
    placement in the attribute [data-actual-placement]. *)
Theorem flipping_updatePosition_policy :
  is_Some (doc !! el) ->
  ~ In placement CssNative.objectPrototypeNames ->
  let targetRect := rect (node doc target) in
  let elRect := rect (node doc el) in
  let offsetPx := offsetPx b (node doc el) offsetValue offsetUnit in
  let chosen :=
    flipPolicy
      (fun p => isWithinViewport (window b) elRect
                  (calculatePosition targetRect elRect offsetPx p))
      placement in
  let pos := calculatePosition targetRect elRect offsetPx chosen in
  exists doc',
    updatePosition b doc el target placement offsetValue offsetUnit = Normal doc'
    /\ style (node doc' el) !! "position" = Some (text "absolute")
    /\ style (node doc' el) !! "left"
       = Some [Num (Flipping.x pos + scrollX (window b)); Lit "px"]
    /\ style (node doc' el) !! "top"
       = Some [Num (Flipping.y pos + scrollY (window b)); Lit "px"]
    /\ getAttribute (node doc' el) "data-actual-placement" = Some chosen.
Proof.
  intros Hel Hn. cbv zeta. unfold updatePosition.
  rewrite (choose_search _ _ _ _ _ Hn). cbv zeta.
  set (chosen := flipPolicy _ placement).
  match goal with
  | |- context [Flipping.placement (if ?fits then ?p else ?q)] =>
      assert (Hchosen : (if fits then p else q)
                        = calculatePosition (rect (node doc target)) (rect (node doc el))
                            (Flipping.offsetPx b (node doc el) offsetValue offsetUnit) chosen)
        by (unfold chosen, flipPolicy; cbv beta; destruct fits; [reflexivity|];
            now destruct (List.find _ _));
      rewrite Hchosen
  end.
  eexists. split; [reflexivity|].
  rewrite (node_update_eq _ _ _ Hel).
  unfold getAttribute, setAttribute, setStyle. cbn [style attributes].
  repeat split.
  - rewrite lookup_insert_ne by discriminate. rewrite lookup_insert_ne by discriminate.
    apply lookup_insert_eq.
  - rewrite lookup_insert_ne by discriminate. apply lookup_insert_eq.
  - apply lookup_insert_eq.
  - apply lookup_insert_eq.
Qed.

End FlippingPage.

(** The first target of the scene is at the top edge: the pass flips to
    bottom and records it. *)
Lemma flipping_updatePosition_policy_witness :
  exists doc',
    Flipping.updatePosition (Examples.browser false) Scenarios.nodes 2 0 "top" (Js.ofZ 8) "px"
    = Js.Normal doc'
    /\ Dom.getAttribute (Dom.node doc' 2) "data-actual-placement" = Some "bottom".
Proof.
  destruct (flipping_updatePosition_policy (Examples.browser false) Scenarios.nodes 2 0 "top"
              (Js.ofZ 8) "px")
    as (doc' & Hrun & _ & _ & _ & Hattr).
  - eexists. reflexivity.
  - exact not_a_prototype_name_top.
  - exists doc'. split; [exact Hrun|]. rewrite Hattr. vm_compute. reflexivity.
Defined.

(** ** The simple script fallback *)

Section SimpleFallback.
Import Js Dom Fallback Invariants.
Local Open Scope Qc_scope.

Variables (b : Browser) (el target : NodeRef).
Variables (placement : string) (offsetValue : Qc) (offsetUnit : string).

(** X6: a unit that the switch does not name (px, a percent sign, the
    empty string, any other text) leaves the raw number as the offset in
    pixels. *)
Theorem offsetPx_unknown_unit (e : Element) :
  ~ In offsetUnit ["rem"; "em"; "vw"; "vh"] ->
  offsetPx b e offsetValue offsetUnit = offsetValue.
Proof. intros H. unfold offsetPx. now apply switch_default. Qed.

(** X7: a pass of [updatePosition] writes nothing but four properties of
    the inline style of the floating element: the document keeps its
    length, every node keeps its id and its attributes other than
    [style], every other node keeps its inline style, and every other
    property of the inline style of the floating element keeps its
    value. *)
Theorem updatePosition_frame (doc : Document) :
  let doc' := updatePosition b doc el target placement offsetValue offsetUnit in
  length doc' = length doc
  /\ (forall n, id (node doc' n) = id (node doc n))
  /\ (forall n name, name <> "style" ->
                     getAttribute (node doc' n) name = getAttribute (node doc n) name)
  /\ (forall n, n <> el -> style (node doc' n) = style (node doc n))
  /\ (forall prop, ~ In prop ["translate"; "position"; "left"; "top"] ->
                   style (node doc' el) !! prop = style (node doc el) !! prop).
Proof.
  cbv zeta. unfold updatePosition.
  set (p := position b doc el target placement offsetValue offsetUnit).
  assert (Hnode : forall n,
            id (node (update (fun e =>
                        setStyle "top" [Num (y p); Lit "px"]
                          (setStyle "left" [Num (x p); Lit "px"]
                             (setStyle "position" (text "absolute")
                                (setStyle "translate" (text (translate p)) e))))
                      el doc) n) = id (node doc n)
            /\ attributes (node (update (fun e =>
                        setStyle "top" [Num (y p); Lit "px"]
                          (setStyle "left" [Num (x p); Lit "px"]
                             (setStyle "position" (text "absolute")
                                (setStyle "translate" (text (translate p)) e))))
                      el doc) n) = attributes (node doc n)).
  { intros n. destruct (decide (el = n)) as [<-|Hne].
    - destruct (doc !! el) as [e|] eqn:He.
      + rewrite node_update_eq by eauto. now cbn.
      + now rewrite node_update_dangling.
    - now rewrite node_update_ne. }
  split; [apply length_update|]. split; [|split; [|split]].
  - intros n. apply Hnode.
  - intros n name _. unfold getAttribute. now rewrite (proj2 (Hnode n)).
  - intros n Hne. rewrite node_update_ne by congruence. reflexivity.
  - intros prop Hp. destruct (doc !! el) as [e|] eqn:He.
    + rewrite node_update_eq by eauto. unfold setStyle. cbn [style].
      rewrite !lookup_insert_ne; [reflexivity|..]; intros <-; apply Hp; simpl; tauto.
    + now rewrite node_update_dangling.
Qed.

(** X8: what a pass writes on a live floating element: [position] is
    absolute, [left] and [top] are the coordinates of [position] in
    pixels, and [translate] is the placement's translate. *)
Theorem updatePosition_writes (doc : Document) :
  is_Some (doc !! el) ->
  let doc' := updatePosition b doc el target placement offsetValue offsetUnit in
  let p := position b doc el target placement offsetValue offsetUnit in
  style (node doc' el) !! "position" = Some (text "absolute")
  /\ style (node doc' el) !! "left" = Some [Num (x p); Lit "px"]
  /\ style (node doc' el) !! "top" = Some [Num (y p); Lit "px"]
  /\ style (node doc' el) !! "translate" = Some (text (translate p)).
Proof.
  intros Hel. cbv zeta. unfold updatePosition.
  rewrite (node_update_eq _ _ _ Hel). unfold setStyle. cbn [style].
  repeat split.
  - do 2 (rewrite lookup_insert_ne by discriminate). apply lookup_insert_eq.
  - rewrite lookup_insert_ne by discriminate. apply lookup_insert_eq.
  - apply lookup_insert_eq.
  - do 3 (rewrite lookup_insert_ne by discriminate). apply lookup_insert_eq.
Qed.

(** The written values depend on the document through rectangles and font
    sizes only. *)
Lemma position_layout (doc doc' : Document) :
  (forall n, rect (node doc' n) = rect (node doc n)
             /\ fontSize (node doc' n) = fontSize (node doc n)) ->
  position b doc' el target placement offsetValue offsetUnit
  = position b doc el target placement offsetValue offsetUnit.
Proof.
  intros H. unfold position, offsetPx.
  destruct (H el) as [_ ->]. now destruct (H target) as [-> _].
Qed.

(** X9: a second pass over an unchanged layout (the scroll and resize
    handler firing again) leaves the document exactly as the first pass
    left it. *)
Theorem updatePosition_idempotent (doc : Document) :
  let doc' := updatePosition b doc el target placement offsetValue offsetUnit in
  updatePosition b doc' el target placement offsetValue offsetUnit = doc'.
Proof.
  cbv zeta.
  assert (Hp : position b (updatePosition b doc el target placement offsetValue offsetUnit)
                 el target placement offsetValue offsetUnit
               = position b doc el target placement offsetValue offsetUnit).
  { apply position_layout. intros n. unfold updatePosition.
    match goal with |- context [update ?f el doc] =>
      destruct (node_update_layout f doc el n) as (? & ? & _); [now intros e|] end.
    now split. }
  unfold updatePosition at 1. rewrite Hp. unfold updatePosition.
  apply update_update. intros e. unfold setStyle. cbn. f_equal.
  apply map_eq. intros k. rewrite !lookup_insert.
  repeat case_decide; reflexivity.
Qed.

End SimpleFallback.

Lemma offsetPx_unknown_unit_witness :
  Fallback.offsetPx (Examples.browser false) Examples.attributed (Js.ofZ 50) "%" = Js.ofZ 50.
Proof.
  apply offsetPx_unknown_unit. cbn. intuition discriminate.
Defined.

Lemma updatePosition_writes_witness :
  Dom.style
    (Dom.node
       (Fallback.updatePosition (Examples.browser false) Scenarios.nodes 2 1 "bottom"
          (Js.ofZ 8) "px") 2)
  !! "translate" = Some (Dom.text "-50% 0").
Proof.
  destruct (updatePosition_writes (Examples.browser false) 2 1 "bottom" (Js.ofZ 8) "px"
              Scenarios.nodes) as (_ & _ & _ & H).
  - eexists. reflexivity.
  - rewrite H. reflexivity.
Defined.

(** ** The listeners of the simple fallback *)

Section Listeners.
Import Js Dom Fallback Invariants.

Lemma filter_all {A : Type} (f : A -> bool) (l : list A) :
  Forall (fun a => f a = true) l -> List.filter f l = l.
Proof.
  induction 1 as [|a l Ha _ IH]; [reflexivity|]. simpl. now rewrite Ha, IH.
Qed.

Variables (b : Browser) (el target : NodeRef).
Variables (placement : string) (offsetValue : Qc) (offsetUnit : string).

(** The returned function removes the two listeners of its own callback
    and keeps the older ones. *)
Lemma cleanup_own_listeners (page : Page) (doc : Document) (c : Closure) :
  wellFormed page -> closureId c = nextClosure page ->
  listeners
    (cleanup c
       (mkPage doc (listeners page ++ [("scroll", c); ("resize", c)])%list
          (S (nextClosure page))))
  = listeners page.
Proof.
  intros Hwf Hid. unfold cleanup, wellFormed in *. cbn [listeners].
  rewrite List.filter_app, Hid.
  assert (Hold : List.filter
                   (fun '(type, callback) =>
                      negb (((type =? "scroll") || (type =? "resize"))
                            && Nat.eqb (closureId callback) (nextClosure page)))
                   (listeners page) = listeners page).
  { apply filter_all. eapply Forall_impl; [exact Hwf|].
    intros [type callback] Hlt. cbn in *.
    assert (Hne : closureId callback <> nextClosure page) by lia.
    apply Nat.eqb_neq in Hne. rewrite Hne. now rewrite andb_false_r. }
  rewrite Hold. cbn. rewrite Hid, Nat.eqb_refl. cbn. now rewrite app_nil_r.
Qed.

(** X10: [applyFallbackPositioning] adds exactly two listeners, scroll
    and resize, both bound to the new callback, after those already
    registered; the function it returns removes these two and no listener
    of another attachment, and leaves the document alone.  Every callback
    on the page being older than the closure counter is an invariant of
    both steps. *)
Theorem applyFallbackPositioning_cleanup (page : Page) :
  wellFormed page ->
  let r := applyFallbackPositioning b page el target placement offsetValue offsetUnit in
  listeners (fst r) = (listeners page ++ [("scroll", snd r); ("resize", snd r)])%list
  /\ wellFormed (fst r)
  /\ listeners (cleanup (snd r) (fst r)) = listeners page
  /\ document (cleanup (snd r) (fst r)) = document (fst r)
  /\ wellFormed (cleanup (snd r) (fst r)).
Proof.
  intros Hwf. cbv zeta. unfold applyFallbackPositioning. cbn [fst snd].
  split; [reflexivity|]. split; [|split; [|split; [reflexivity|]]].
  - unfold wellFormed in *. cbn [listeners nextClosure]. apply Forall_app. split.
    + eapply Forall_impl; [exact Hwf|]. intros entry Hlt. cbn in *. lia.
    + repeat constructor; cbn; lia.
  - now apply cleanup_own_listeners.
  - unfold wellFormed. cbn [nextClosure cleanup].
    match goal with
    | |- Forall _ (listeners (cleanup ?c ?p)) =>
        assert (Hl : listeners (cleanup c p) = listeners page)
          by now apply cleanup_own_listeners
    end.
    rewrite Hl. eapply Forall_impl; [exact Hwf|]. intros entry Hlt. cbn in *. lia.
Qed.

End Listeners.

Lemma wellFormed_twoTargets : Invariants.wellFormed Examples.twoTargets.
Proof. constructor. Qed.

Lemma applyFallbackPositioning_cleanup_witness :
  let r :=
    Fallback.applyFallbackPositioning (Examples.browser false) Examples.twoTargets 2 1
      "bottom" (Js.ofZ 8) "px" in
  Dom.listeners (Fallback.cleanup (snd r) (fst r)) = [].
Proof.
  exact (proj1 (proj2 (proj2
           (applyFallbackPositioning_cleanup (Examples.browser false) 2 1 "bottom"
              (Js.ofZ 8) "px" Examples.twoTargets wellFormed_twoTargets)))).
Defined.

(** ** The CSS-native positioner *)

Section NativeStyles.
Import Js Dom CssNative.

Lemma fallbacksAt_inherited (placement : string) :
  fallbacksAt placement = Inherited -> In placement objectPrototypeNames.
Proof.
  unfold fallbacksAt.
  destruct (existsb (String.eqb placement) objectPrototypeNames) eqn:E.
  - intros _. apply existsb_exists in E as (k & Hk & Heq).
    apply String.eqb_eq in Heq. now subst.
  - destruct (switch_own Own placement fallbacks Undefined []) as [[-> _]|(a & -> & _)];
      discriminate.
Qed.

Lemma getPositionTryOptions_normal (placement : string) :
  ~ In placement objectPrototypeNames ->
  exists tryOptions, getPositionTryOptions placement = Normal tryOptions.
Proof.
  intros Hn. unfold getPositionTryOptions.
  pose proof (fallbacksAt_inherited placement) as H.
  destruct (fallbacksAt placement); [eauto | now destruct Hn; apply H | eauto].
Qed.

(** The only error of [getAnchorCSS]. *)
Lemma getAnchorCSS_throws (anchorName placement : string) (offsetValue : Qc)
    (offsetUnit : string) (e : Error) :
  getAnchorCSS anchorName placement offsetValue offsetUnit = Throw e ->
  e = TypeError /\ In placement objectPrototypeNames.
Proof.
  unfold getAnchorCSS, getPositionTryOptions.
  pose proof (fallbacksAt_inherited placement) as H.
  destruct (fallbacksAt placement); [discriminate | | discriminate].
  intros [= <-]. split; [reflexivity | now apply H].
Qed.

Variables (anchorName : string) (offsetValue : Qc) (offsetUnit : string).

(** The declarations that do not depend on the placement. *)
Lemma getAnchorCSS_base (placement : string) :
  ~ In placement objectPrototypeNames ->
  exists styles : gmap string CssText,
    getAnchorCSS anchorName placement offsetValue offsetUnit = Normal styles
    /\ styles !! "position" = Some (text "absolute")
    /\ styles !! "position-anchor" = Some (text anchorName)
    /\ styles !! "anchor-name" = None.
Proof.
  intros Hn. destruct (getPositionTryOptions_normal _ Hn) as [tryOptions Ht].
  unfold getAnchorCSS. rewrite Ht. eexists. split; [reflexivity|].
  match goal with |- context [switch placement ?cases ?d] =>
    destruct (switch_In placement cases d) as [->|Hin] end.
  - vm_compute. repeat split.
  - match type of Hin with In (_, ?s) _ => set (l := s) in *; clearbody l end.
    simpl in Hin.
    repeat (destruct Hin as [Hin|Hin];
            [injection Hin as _ <-; vm_compute; repeat split|]).
    contradiction.
Qed.

(** X11: for every placement string that is not the name of a member of
    [Object.prototype], [getAnchorCSS] returns exactly six declarations:
    [position] absolute, [position-anchor] with the anchor name,
    [position-try-options] with the rendered candidates, a [translate],
    exactly one of [top] and [bottom], and exactly one of [left] and
    [right].  It never sets [anchor-name], which belongs to the target. *)
Theorem getAnchorCSS_shape (placement : string) :
  ~ In placement objectPrototypeNames ->
  exists (tryOptions : string) (styles : gmap string CssText),
    getPositionTryOptions placement = Normal tryOptions
    /\ getAnchorCSS anchorName placement offsetValue offsetUnit = Normal styles
    /\ styles !! "position" = Some (text "absolute")
    /\ styles !! "position-anchor" = Some (text anchorName)
    /\ styles !! "position-try-options" = Some (text tryOptions)
    /\ is_Some (styles !! "translate")
    /\ (is_Some (styles !! "top") <-> styles !! "bottom" = None)
    /\ (is_Some (styles !! "left") <-> styles !! "right" = None)
    /\ styles !! "anchor-name" = None
    /\ size styles = 6%nat.
Proof.
  intros Hn. destruct (getPositionTryOptions_normal _ Hn) as [tryOptions Ht].
  unfold getAnchorCSS. rewrite Ht.
  exists tryOptions. eexists. split; [reflexivity|]. split; [reflexivity|].
  match goal with |- context [switch placement ?cases ?d] =>
    destruct (switch_In placement cases d) as [->|Hin] end.
  - vm_compute. repeat split; eauto; try discriminate; intros [? ?]; discriminate.
  - match type of Hin with In (_, ?s) _ => set (l := s) in *; clearbody l end.
    simpl in Hin.
    repeat (destruct Hin as [Hin|Hin];
            [injection Hin as _ <-; vm_compute;
             repeat split; eauto; try discriminate; intros [? ?]; discriminate|]).
    contradiction.
Qed.

End NativeStyles.

Lemma getAnchorCSS_shape_witness :
  exists styles,
    CssNative.getAnchorCSS "--anchor-a" "top" (Js.ofZ 8) "px" = Js.Normal styles
    /\ size styles = 6%nat.
Proof.
  destruct (getAnchorCSS_shape "--anchor-a" (Js.ofZ 8) "px" "top" not_a_prototype_name_top)
    as (tryOptions & styles & _ & Hrun & _ & _ & _ & _ & _ & _ & _ & Hsize).
  exists styles. split; [exact Hrun | exact Hsize].
Defined.

(** ** The entry point *)

Section OnLoad.
Import Js Dom Resolver Plugin CssNative Invariants.

Variables (b : Browser) (page : Page) (el targetElement : NodeRef) (value : string).

(** X12: on the native path, with a live floating element and a live
    target, [onLoad] returns no cleanup function and adds no listener;
    afterwards the target has its id (its own, or the generated one) and
    carries the anchor name of that id, and the floating element refers to
    the same name, also when the floating element is its own target. *)
Theorem onLoad_native_links :
  let doc := document page in
  let cfg := parseAnchorConfig (node doc el) value in
  target cfg <> EmptyString ->
  findTarget b doc (target cfg) = Normal (Some targetElement) ->
  is_Some (doc !! el) -> is_Some (doc !! targetElement) ->
  supportsCSSAnchor b = true ->
  ~ In (placement cfg) objectPrototypeNames ->
  exists page',
    onLoad b page el value = Returned page' None
    /\ listeners page' = listeners page
    /\ id (node (document page') targetElement) = targetIdOf b page targetElement
    /\ style (node (document page') targetElement) !! "anchor-name"
       = Some (text (generateAnchorName (targetIdOf b page targetElement)))
    /\ style (node (document page') el) !! "position-anchor"
       = Some (text (generateAnchorName (targetIdOf b page targetElement)))
    /\ style (node (document page') el) !! "position" = Some (text "absolute").
Proof.
  cbv zeta. intros Hne Hfind Hel Ht Hcss Hpl.
  unfold onLoad. rewrite (nonEmpty_true _ Hne). cbn [negb]. rewrite Hfind, Hcss.
  fold (targetIdOf b page targetElement).
  set (targetId := targetIdOf b page targetElement).
  destruct (getAnchorCSS_base (generateAnchorName targetId)
              (offsetValue (parseAnchorConfig (node (document page) el) value))
              (offsetUnit (parseAnchorConfig (node (document page) el) value))
              _ Hpl)
    as (styles & -> & Hpos & Hanchor & Hnone).
  eexists. split; [reflexivity|]. split; [reflexivity|].
  unfold withDocument. cbn [document].
  set (doc1 := if nonEmpty (id (node (document page) targetElement))
               then document page
               else update (setId targetId) targetElement (document page)).
  assert (Hid1 : id (node doc1 targetElement) = targetId).
  { unfold doc1, targetId, targetIdOf.
    destruct (id (node (document page) targetElement)) eqn:E; cbn [nonEmpty orElse].
    - now rewrite node_update_eq.
    - exact E. }
  assert (Hs1 : forall n, is_Some (doc1 !! n) <-> is_Some (document page !! n)).
  { intros n. unfold doc1. destruct (nonEmpty _); [reflexivity | apply update_is_Some]. }
  set (doc2 := update (setStyle "anchor-name" (text (generateAnchorName targetId)))
                 targetElement doc1).
  assert (Ht2 : node doc2 targetElement
                = setStyle "anchor-name" (text (generateAnchorName targetId))
                    (node doc1 targetElement)).
  { unfold doc2. apply node_update_eq. now apply Hs1. }
  assert (Hel2 : is_Some (doc2 !! el)).
  { unfold doc2. apply update_is_Some. now apply Hs1. }
  rewrite (node_update_eq _ _ _ Hel2).
  assert (Hfinal : node (update (assignStyle styles) el doc2) targetElement
                   = (if decide (el = targetElement)
                      then assignStyle styles (node doc2 targetElement)
                      else node doc2 targetElement)).
  { destruct (decide (el = targetElement)) as [<-|Hd].
    - now apply node_update_eq.
    - now apply node_update_ne. }
  rewrite Hfinal. repeat split.
  - destruct (decide _); rewrite ?Ht2; cbn [assignStyle setStyle id]; exact Hid1.
  - destruct (decide _); rewrite Ht2; cbn [assignStyle setStyle style].
    + rewrite lookup_union_r by exact Hnone. apply lookup_insert_eq.
    + apply lookup_insert_eq.
  - cbn [assignStyle style]. now apply lookup_union_Some_l.
  - cbn [assignStyle style]. now apply lookup_union_Some_l.
Qed.

(** X13: on the fallback path [onLoad] returns a cleanup function; the
    page then holds two more listeners, scroll and resize, bound to it,
    and running the function removes them again, giving back the listeners
    the page had, without touching the document. *)
Theorem onLoad_fallback_removal :
  let doc := document page in
  let cfg := parseAnchorConfig (node doc el) value in
  wellFormed page ->
  target cfg <> EmptyString ->
  findTarget b doc (target cfg) = Normal (Some targetElement) ->
  supportsCSSAnchor b = false ->
  exists page' onRemoval,
    onLoad b page el value = Returned page' (Some onRemoval)
    /\ listeners page'
       = (listeners page ++ [("scroll", onRemoval); ("resize", onRemoval)])%list
    /\ listeners (Fallback.cleanup onRemoval page') = listeners page
    /\ document (Fallback.cleanup onRemoval page') = document page'.
Proof.
  cbv zeta. intros Hwf Hne Hfind Hcss.
  unfold onLoad. rewrite (nonEmpty_true _ Hne). cbn [negb]. rewrite Hfind, Hcss.
  unfold Fallback.applyFallbackPositioning, withDocument.
  cbn [document listeners nextClosure].
  eexists. eexists. split; [reflexivity|]. split; [reflexivity|].
  split; [now apply cleanup_own_listeners | reflexivity].
Qed.

(** X14: [onLoad] raises in two situations only.  Either the lookup of
    the target raises (a selector the selector engine rejects), and then
    the page is as it was; or the native path is taken with a placement
    that names a member of [Object.prototype], and then a [TypeError]
    leaves [getPositionTryOptions] after the target was found, with the
    listeners as they were. *)
Theorem onLoad_raises_only (e : Error) (page' : Page) :
  let doc := document page in
  let cfg := parseAnchorConfig (node doc el) value in
  onLoad b page el value = Raised e page' ->
  (findTarget b doc (target cfg) = Throw e /\ page' = page)
  \/ (e = TypeError
      /\ supportsCSSAnchor b = true
      /\ In (placement cfg) objectPrototypeNames
      /\ listeners page' = listeners page
      /\ exists found, findTarget b doc (target cfg) = Normal (Some found)).
Proof.
  cbv zeta. unfold onLoad.
  destruct (nonEmpty _); cbn [negb]; [|discriminate].
  destruct (findTarget _ _ _) as [[found|]|e0]; [| discriminate | intros [= <- <-]; now left].
  destruct (supportsCSSAnchor b).
  - destruct (getAnchorCSS _ _ _ _) as [styles|e0] eqn:E; [discriminate|].
    intros [= <- <-]. apply getAnchorCSS_throws in E as [-> Hin].
    right. repeat split; [exact Hin|]. now exists found.
  - destruct (Fallback.applyFallbackPositioning _ _ _ _ _ _ _). discriminate.
Qed.

End OnLoad.

(** The second floating element of the scene, anchored above the target
    my-button, in a browser with native anchor positioning. *)
Lemma onLoad_native_links_witness :
  exists page',
    Plugin.onLoad (Examples.browser true) Examples.twoTargets 3 "#my-button, top"
    = Plugin.Returned page' None
    /\ Dom.style (Dom.node (Dom.document page') 1) !! "anchor-name"
       = Some (Dom.text "--anchor-my-button")
    /\ Dom.style (Dom.node (Dom.document page') 3) !! "position-anchor"
       = Some (Dom.text "--anchor-my-button").
Proof.
  destruct (onLoad_native_links (Examples.browser true) Examples.twoTargets 3 1
              "#my-button, top")
    as (page' & Hrun & _ & _ & Hname & Hanchor & _).
  - discriminate.
  - reflexivity.
  - eexists. reflexivity.
  - eexists. reflexivity.
  - reflexivity.
  - cbn. intuition discriminate.
  - exists page'. split; [exact Hrun|]. split; [exact Hname | exact Hanchor].
Defined.

Lemma onLoad_fallback_removal_witness :
  exists page' onRemoval,
    Plugin.onLoad (Examples.browser false) Examples.twoTargets 3 "#my-button, top"
    = Plugin.Returned page' (Some onRemoval)
    /\ Dom.listeners (Fallback.cleanup onRemoval page') = [].
Proof.
  destruct (onLoad_fallback_removal (Examples.browser false) Examples.twoTargets 3 1
              "#my-button, top")
    as (page' & onRemoval & Hrun & _ & Hclean & _).
  - exact wellFormed_twoTargets.
  - discriminate.
  - reflexivity.
  - reflexivity.
  - exists page', onRemoval. split; [exact Hrun | exact Hclean].
Defined.

(** A selector that starts with a digit, in a browser that rejects it. *)
Lemma onLoad_raises_only_witness :
  Plugin.onLoad Examples.strictBrowser Examples.twoTargets 2 "123"
  = Plugin.Raised Js.DOMSyntaxError Examples.twoTargets
  /\ Plugin.findTarget Examples.strictBrowser (Dom.document Examples.twoTargets) "123"
     = Js.Throw Js.DOMSyntaxError.
Proof.
  split; [reflexivity|].
  destruct (onLoad_raises_only Examples.strictBrowser Examples.twoTargets 2 "123"
              Js.DOMSyntaxError Examples.twoTargets eq_refl) as [[H _]|(H & _)].
  - exact H.
  - discriminate H.
Defined.

(** ** The geometry engine: what the clamp achieves *)

Section EngineBounds.
Import Js Dom FloatingUICore Documented Invariants.
Local Open Scope Qc_scope.

Variables (w : Window) (refRect floatingRect : Rect) (offset : Qc) (placement : string).

(** X15: in a layout in whole pixels (the reference rectangle, the size
    of the floating box and the size of the viewport are whole numbers of
    pixels, so that the sums and halves the engine forms are exact), the
    engine's clamp keeps the floating box inside the padded viewport on an
    axis whenever the placement the engine works with names neither
    direction of that axis and the box, with a padding of 5 on both sides,
    is no larger than the viewport on that axis: for the top and bottom
    placements the box then lies horizontally between the paddings, and
    for the left and right placements vertically. *)
Theorem engine_keeps_unflipped_axis_inside :
  wholePixels w refRect floatingRect ->
  let ep := finalPlacement (basePosition placement refRect floatingRect offset) in
  let out := adjusted w refRect floatingRect placement offset in
  (includes "left" ep = false -> includes "right" ep = false ->
   width floatingRect + padding + padding <= innerWidth w ->
   padding <= lx out /\ lx out + width floatingRect <= innerWidth w - padding)
  /\ (includes "top" ep = false -> includes "bottom" ep = false ->
      height floatingRect + padding + padding <= innerHeight w ->
      padding <= ly out /\ ly out + height floatingRect <= innerHeight w - padding).
Proof.
  intros _. cbv zeta. unfold adjusted.
  pose proof (adjust_both w refRect floatingRect offset _
                (effective_placement_In refRect floatingRect offset placement)) as H.
  cbv zeta in H. destruct H as (HL & HR & HN & VT & VB & VN & _).
  set (base := basePosition placement refRect floatingRect offset) in *.
  set (out := adjustVertical _ _ _ _ _) in *. clearbody out.
  split.
  - intros Hl Hr Hfit. rewrite Hl in HL. rewrite Hr in HR.
    destruct (decide (lx base < padding)) as [H1|H1].
    + rewrite (HL H1). split; qc_lra.
    + destruct (decide (innerWidth w - padding < lx base + width floatingRect)) as [H2|H2].
      * rewrite (HR H1 H2). split; qc_lra.
      * rewrite (HN H1 H2). split; qc_lra.
  - intros Ht Hb Hfit. rewrite Ht in VT. rewrite Hb in VB.
    destruct (decide (ly base < padding)) as [H1|H1].
    + rewrite (VT H1). split; qc_lra.
    + destruct (decide (innerHeight w - padding < ly base + height floatingRect)) as [H2|H2].
      * rewrite (VB H1 H2). split; qc_lra.
      * rewrite (VN H1 H2). split; qc_lra.
Qed.

End EngineBounds.

Lemma wholePixel_ofZ (z : Z) :
  (- 2 ^ 40 <= z <= 2 ^ 40)%Z -> Invariants.wholePixel (Js.ofZ z).
Proof. intros H. now exists z. Qed.

(** A reference 20 wide at the right edge of an 1000 by 800 viewport and a
    box 100 wide above it: centred on the reference the box would end at
    x = 1040, and the clamp sets x to 895. *)
Lemma engine_keeps_unflipped_axis_inside_witness :
  let out :=
    FloatingUICore.adjusted (Examples.viewport 1000 800) (Examples.box 980 300 20 30)
      (Examples.box 0 0 100 20) "top" (Js.ofZ 8) in
  FloatingUICore.lx out = Js.ofZ 895
  /\ (FloatingUICore.padding <= FloatingUICore.lx out)%Qc
  /\ (FloatingUICore.lx out + Js.ofZ 100 <= Js.ofZ 1000 - FloatingUICore.padding)%Qc.
Proof.
  cbv zeta. split; [vm_compute; reflexivity|].
  refine (proj1 (engine_keeps_unflipped_axis_inside (Examples.viewport 1000 800)
                   (Examples.box 980 300 20 30) (Examples.box 0 0 100 20) (Js.ofZ 8)
                   "top" _) eq_refl eq_refl _).
  - repeat split; apply wholePixel_ofZ; vm_compute; split; discriminate.
  - vm_compute. discriminate.
Defined.

(** ** Placement strings outside the twelve *)

Section Unrecognised.
Import Js Dom Documented.

Lemma not_recognised (placement : string) :
  recognised placement = false -> ~ In placement allPlacements.
Proof.
  unfold recognised. intros H Hin.
  assert (existsb (String.eqb placement) allPlacements = true); [|congruence].
  apply existsb_exists. exists placement. split; [exact Hin | apply String.eqb_refl].
Qed.

(** X16: a placement string that is none of the twelve is treated as
    bottom by every draft: the simple fallback, the geometry engine and the
    flipping draft compute the coordinates of bottom (the flipping draft
    keeps the string it was given as the placement it reports), and the
    native styles are those of bottom except for the candidates, which are
    flip-bottom, flip-top, flip-left, flip-right. *)
Theorem unrecognised_placement_is_bottom (placement : string) :
  recognised placement = false ->
  (forall r off, Fallback.place r placement off = Fallback.place r "bottom" off)
  /\ (forall t e off,
        FloatingUICore.basePosition placement t e off
        = FloatingUICore.basePosition "bottom" t e off)
  /\ (forall t e off,
        Flipping.calculatePosition t e off placement
        = Flipping.mkPosition
            (Flipping.x (Flipping.calculatePosition t e off "bottom"))
            (Flipping.y (Flipping.calculatePosition t e off "bottom")) placement)
  /\ (~ In placement CssNative.objectPrototypeNames ->
      CssNative.getPositionTryOptions placement
      = Normal "flip-bottom, flip-top, flip-left, flip-right"
      /\ forall name v u,
           exists s sb,
             CssNative.getAnchorCSS name placement v u = Normal s
             /\ CssNative.getAnchorCSS name "bottom" v u = Normal sb
             /\ forall k, k <> "position-try-options" -> s !! k = sb !! k).
Proof.
  intros Hr. apply not_recognised in Hr. rewrite allPlacements_twelve in Hr.
  split; [|split; [|split]].
  - intros r off. unfold Fallback.place. now rewrite switch_default.
  - intros t e off. unfold FloatingUICore.basePosition. now rewrite switch_default.
  - intros t e off. unfold Flipping.calculatePosition. now rewrite switch_default.
  - intros Hn.
    assert (Hopt : CssNative.getPositionTryOptions placement
                   = Normal "flip-bottom, flip-top, flip-left, flip-right").
    { unfold CssNative.getPositionTryOptions, CssNative.fallbacksAt.
      rewrite switch_default by exact Hr.
      destruct (existsb _ _) eqn:E; [|reflexivity].
      apply existsb_exists in E as (k & Hk & Heq). apply String.eqb_eq in Heq. now subst. }
    split; [exact Hopt|]. intros name v u.
    assert (Hb : CssNative.getPositionTryOptions "bottom"
                 = Normal "flip-top, flip-left, flip-right") by reflexivity.
    unfold CssNative.getAnchorCSS. rewrite Hopt, Hb.
    rewrite switch_default by exact Hr.
    match goal with |- context [switch "bottom" ?c ?d] =>
      change (switch "bottom" c d) with d end.
    eexists. eexists. split; [reflexivity|]. split; [reflexivity|].
    intros k Hk. unfold CssNative.assign. cbn [fold_left].
    rewrite !lookup_insert. repeat case_decide; try reflexivity.
    exfalso. apply Hk. symmetry. assumption.
Qed.

End Unrecognised.

Lemma unrecognised_placement_is_bottom_witness :
  Fallback.place Scenarios.topEdge "middle" (Js.ofZ 8)
  = Fallback.place Scenarios.topEdge "bottom" (Js.ofZ 8).
Proof.
  exact (proj1 (unrecognised_placement_is_bottom "middle" eq_refl) Scenarios.topEdge
           (Js.ofZ 8)).
Defined.

(** ** The resolver: ranges and segments *)

Section ResolverRange.
Import Js Dom Resolver Documented.
Local Open Scope Qc_scope.

Lemma digitValue_nonneg (c : ascii) : isDigit c = true -> (0 <= digitValue c)%Z.
Proof.
  unfold isDigit, codeIn, digitValue. intros H.
  apply andb_prop in H as [H _]. apply Nat.leb_le in H. lia.
Qed.

Lemma digitsValue_nonneg (s : string) (acc : Z) :
  (0 <= acc)%Z -> allChars isDigit s = true -> (0 <= digitsValue acc s)%Z.
Proof.
  revert acc. induction s as [|c s IH]; simpl; intros acc Hacc Hs; [exact Hacc|].
  apply andb_prop in Hs as [Hc Hs]. apply IH; [|exact Hs].
  pose proof (digitValue_nonneg c Hc). lia.
Qed.

Lemma ofZ_nonneg (z : Z) : (0 <= z)%Z -> 0 <= ofZ z.
Proof.
  intros H. unfold Qcle. rewrite this_ofZ, this_zero. change 0%Q with (inject_Z 0).
  now rewrite <- Zle_Qle.
Qed.

Lemma Qcdiv_nonneg (a c : Qc) : 0 <= a -> 0 <= c -> 0 <= a / c.
Proof.
  unfold Qcle, Qcdiv. rewrite this_mult, this_inv, !this_zero.
  intros Ha Hc. apply Qmult_le_0_compat; [exact Ha|]. now apply Qinv_le_0_compat.
Qed.

Lemma Qcplus_nonneg (a c : Qc) : 0 <= a -> 0 <= c -> 0 <= a + c.
Proof.
  intros Ha Hc. qc_lra.
Qed.

Lemma span_digits_all (s : string) : allChars isDigit (fst (span isDigit s)) = true.
Proof. apply span_spec. Qed.

Lemma parseFloat_nonneg (s : string) : 0 <= parseFloat s.
Proof.
  unfold parseFloat. pose proof (span_digits_all s) as Hint.
  destruct (span isDigit s) as [int rest]. cbn [fst] in Hint.
  assert (Hi : 0 <= ofZ (digitsValue 0 int)).
  { apply ofZ_nonneg. now apply digitsValue_nonneg. }
  destruct rest as [|c frac]; [exact Hi|].
  destruct (Ascii.eqb c dot); [|exact Hi].
  pose proof (span_digits_all frac) as Hf.
  destruct (span isDigit frac) as [f r]. cbn [fst] in Hf.
  apply Qcplus_nonneg; [exact Hi|]. apply Qcdiv_nonneg.
  - apply ofZ_nonneg. now apply digitsValue_nonneg.
  - apply ofZ_nonneg. apply Z.pow_nonneg. lia.
Qed.

Variable el : Element.

(** X17: whatever the value and the attributes, the offset the resolver
    answers is never negative, and its unit is a non-empty run of
    lower-case letters and percent signs. *)
Theorem resolved_offset_range (value : string) :
  let cfg := parseAnchorConfig el value in
  0 <= offsetValue cfg
  /\ offsetUnit cfg <> EmptyString
  /\ allChars isUnitChar (offsetUnit cfg) = true.
Proof.
  cbv zeta.
  assert (Hunit : forall lit g1 g2, matchOffset lit = Some (g1, g2) ->
            orElse g2 "px" <> EmptyString /\ allChars isUnitChar (orElse g2 "px") = true).
  { intros lit g1 g2 Hm. apply matchOffset_sound in Hm.
    destruct Hm as (int & frac & ws & _ & _ & _ & _ & _ & _ & Hu).
    destruct g2; [split; [discriminate | reflexivity] | split; [discriminate | exact Hu]]. }
  assert (H8 : 0 <= ofZ 8) by (apply ofZ_nonneg; lia).
  unfold parseAnchorConfig.
  destruct (includes (char comma) (cleanValue value)).
  - unfold parseCommaForm, commaOffset. cbn [offsetValue offsetUnit].
    destruct (parts (cleanValue value) !! 2%nat) as [part|];
      [|now repeat split].
    destruct (nonEmpty part); [|now repeat split].
    destruct (matchOffset part) as [[g1 g2]|] eqn:Hm; [|now repeat split].
    cbn [fst snd]. split; [apply parseFloat_nonneg | now apply (Hunit part g1)].
  - unfold parseAttributeForm. cbn [offsetValue offsetUnit].
    destruct (matchOffset _) as [[g1 g2]|] eqn:Hm; [|now repeat split].
    split; [apply parseFloat_nonneg | now apply (Hunit _ g1 g2 Hm)].
Qed.

End ResolverRange.

Section ResolverSegments.
Import Js Dom Resolver Documented.

Lemma includes_char_trimStart (c : ascii) (s : string) :
  includes (char c) s = false -> includes (char c) (trimStart s) = false.
Proof.
  induction s as [|x s IH]; [auto|]. simpl trimStart.
  destruct (isWhitespace x); [|auto].
  rewrite includes_char_cons. intros H. apply orb_false_elim in H as [_ H]. auto.
Qed.

Lemma includes_char_trimEnd (c : ascii) (s : string) :
  includes (char c) s = false -> includes (char c) (trimEnd s) = false.
Proof.
  induction s as [|x s IH]; [auto|]. rewrite includes_char_cons.
  intros H. apply orb_false_elim in H as [Hx Hs]. specialize (IH Hs).
  simpl trimEnd. destruct (trimEnd s) as [|y r].
  - destruct (isWhitespace x); [reflexivity|].
    rewrite includes_char_cons, Hx. reflexivity.
  - rewrite includes_char_cons, Hx. exact IH.
Qed.

Lemma includes_char_trim (c : ascii) (s : string) :
  includes (char c) s = false -> includes (char c) (trim s) = false.
Proof. intros H. unfold trim. now apply includes_char_trimEnd, includes_char_trimStart. Qed.

Lemma split_segments (sep : ascii) (s : string) :
  Forall (fun seg => includes (char sep) seg = false) (split sep s).
Proof.
  induction s as [|x s IH]; [repeat constructor|]. simpl.
  destruct (Ascii.eqb x sep) eqn:E.
  - constructor; [reflexivity | exact IH].
  - destruct (split sep s) as [|seg rest].
    + repeat constructor. rewrite includes_char_cons, Ascii.eqb_sym, E. reflexivity.
    + inversion IH as [|? ? Hseg Hrest]; subst. constructor; [|exact Hrest].
      rewrite includes_char_cons, Ascii.eqb_sym, E. exact Hseg.
Qed.

Lemma parts_segments (cv : string) :
  Forall (fun part => includes (char comma) part = false /\ part <> EmptyString) (parts cv).
Proof.
  unfold parts. apply List.Forall_forall. intros part Hin.
  apply filter_In in Hin as [Hin Hne]. split; [|now apply nonEmpty_iff].
  apply in_map_iff in Hin as (seg & <- & Hseg).
  apply includes_char_trim.
  pose proof (split_segments comma cv) as H.
  rewrite List.Forall_forall in H. now apply H.
Qed.

Variable el : Element.

(** X18: a target that the resolver takes from a non-empty cleaned value
    holds no comma, and in the comma form neither does the placement: the
    parts are the trimmed, non-empty segments between the commas. *)
Theorem resolved_from_value_has_no_comma (value : string) :
  let cfg := parseAnchorConfig el value in
  (cleanValue value <> EmptyString -> includes (char comma) (target cfg) = false)
  /\ (includes (char comma) (cleanValue value) = true ->
      includes (char comma) (placement cfg) = false).
Proof.
  cbv zeta. unfold parseAnchorConfig.
  pose proof (parts_segments (cleanValue value)) as Hp.
  rewrite List.Forall_forall in Hp.
  assert (Hnth : forall i d, includes (char comma) d = false ->
            includes (char comma) (orDefault (parts (cleanValue value) !! i) d) = false).
  { intros i d Hd. destruct (parts (cleanValue value) !! i) as [part|] eqn:E; [|exact Hd].
    apply list_elem_of_lookup_2, list_elem_of_In in E. destruct (Hp _ E) as [Hc Hne].
    cbn [orDefault]. now rewrite orElse_nonEmpty. }
  destruct (includes (char comma) (cleanValue value)) eqn:Hc.
  - unfold parseCommaForm. cbn [target placement]. split; intros _; now apply Hnth.
  - unfold parseAttributeForm. cbn [target placement]. split; [|discriminate].
    intros Hne. now rewrite orElse_nonEmpty.
Qed.

Lemma stripTrailingQuote_app (v : string) (q : ascii) :
  isQuote q = true -> stripTrailingQuote (v ++ char q) = v.
Proof.
  intros Hq. induction v as [|c v IH]; [simpl; now rewrite Hq|].
  rewrite append_cons. simpl stripTrailingQuote.
  destruct (v ++ char q) as [|y r] eqn:E.
  - destruct v; discriminate E.
  - now rewrite IH.
Qed.

(** X19: one quote character, single or double, is taken off each end of
    the value, also when the two differ: the cleaned value is the trimmed
    text between them, and when that text has no quote at its own ends the
    quoted value resolves exactly as the text does. *)
Theorem quoted_value_resolves_as_its_content (v : string) (q q' : ascii) :
  isQuote q = true -> isQuote q' = true ->
  cleanValue (String q (v ++ char q')) = trim v
  /\ (stripQuotes v = v ->
      parseAnchorConfig el (String q (v ++ char q')) = parseAnchorConfig el v).
Proof.
  intros Hq Hq'.
  assert (Hc : cleanValue (String q (v ++ char q')) = trim v).
  { unfold cleanValue, stripQuotes. cbn [stripLeadingQuote]. rewrite Hq.
    now rewrite stripTrailingQuote_app. }
  split; [exact Hc|]. intros Hv. unfold parseAnchorConfig. rewrite Hc.
  unfold cleanValue. now rewrite Hv.
Qed.

End ResolverSegments.

Lemma quoted_value_resolves_as_its_content_witness :
  Resolver.cleanValue "'#menu, top'" = "#menu, top".
Proof.
  exact (proj1 (quoted_value_resolves_as_its_content Examples.attributed "#menu, top"
                  "'" "'" eq_refl eq_refl)).
Defined.

(** ** The resolver: defaults and precedence *)

Section ResolverClaims.
Import Js Dom Resolver Documented Invariants.

Lemma includes_char_stripQuotes (c : ascii) (s : string) :
  includes (char c) s = false -> includes (char c) (stripQuotes s) = false.
Proof.
  intros H. unfold stripQuotes.
  assert (Hl : includes (char c) (stripLeadingQuote s) = false).
  { destruct s as [|x s]; [reflexivity|]. simpl. destruct (isQuote x); [|exact H].
    rewrite includes_char_cons in H. now apply orb_false_elim in H as [_ H]. }
  clear H. revert Hl. generalize (stripLeadingQuote s). clear s.
  induction s as [|x s IH]; [reflexivity|]. rewrite includes_char_cons.
  intros H. apply orb_false_elim in H as [Hx Hs]. simpl.
  destruct s as [|y s'].
  - destruct (isQuote x); [reflexivity|]. now rewrite includes_char_cons, Hx.
  - rewrite includes_char_cons, Hx. now apply IH.
Qed.


Lemma has_comma (t r : string) : includes (char comma) (t ++ String comma r) = true.
Proof. rewrite includes_char_app, includes_char_cons, Ascii.eqb_refl. now rewrite orb_true_r. Qed.

Lemma parts_two (t p : string) :
  includes (char comma) t = false -> includes (char comma) p = false ->
  parts (t ++ String comma p) = List.filter nonEmpty [trim t; trim p].
Proof.
  intros Ht Hp. unfold parts. now rewrite (split_app _ _ _ Ht), (split_without _ _ Hp).
Qed.

(** A run of at most 15 digits denotes a whole number below 2^53. *)
Lemma digitsValue_bound (d : string) (acc : Z) :
  (0 <= acc)%Z -> allChars isDigit d = true ->
  (digitsValue acc d < (acc + 1) * 10 ^ Z.of_nat (String.length d))%Z.
Proof.
  revert acc. induction d as [|c d IH]; intros acc Hacc Hd.
  - simpl. lia.
  - simpl in Hd. apply andb_prop in Hd as [Hc Hd]. cbn [digitsValue String.length].
    assert (Hv : (0 <= digitValue c <= 9)%Z).
    { unfold isDigit, codeIn, digitValue in *. apply andb_prop in Hc as [H1 H2].
      apply Nat.leb_le in H1, H2. lia. }
    specialize (IH (10 * acc + digitValue c)%Z ltac:(lia) Hd).
    rewrite Nat2Z.inj_succ, Z.pow_succ_r by lia.
    assert (0 < 10 ^ Z.of_nat (String.length d))%Z by (apply Z.pow_pos_nonneg; lia).
    nia.
Qed.

Lemma shortDigits_exact (d : string) :
  allChars isDigit d = true -> shortDigits d ->
  (0 <= digitsValue 0 d < 2 ^ 53)%Z.
Proof.
  intros Hd Hs. split; [apply digitsValue_nonneg; [lia | exact Hd]|].
  pose proof (digitsValue_bound d 0 ltac:(lia) Hd) as H.
  unfold shortDigits in Hs.
  assert (10 ^ Z.of_nat (String.length d) <= 10 ^ 15)%Z
    by (apply Z.pow_le_mono_r; lia).
  assert (10 ^ 15 < 2 ^ 53)%Z by reflexivity. lia.
Qed.

(** Digits followed by a unit: the two groups of the offset pattern. *)
Lemma matchOffset_digits_unit (d u : string) :
  d <> EmptyString -> allChars isDigit d = true -> allChars isUnitChar u = true ->
  matchOffset (d ++ u) = Some (d, u) /\ parseFloat d = ofZ (digitsValue 0 d).
Proof.
  intros Hne Hd Hu. split; [|now apply matchOffset_digits].
  apply matchOffset_complete. exists d, EmptyString, EmptyString.
  repeat split; auto. now rewrite append_nil_r.
Qed.

Variable el : Element.





(** C6: when the cleaned value holds a comma the result is the same
    whatever attributes the element carries, and the placement and the
    offset are the second and the third segment of the value: with a
    target and a placement the result is these two and the default offset,
    with an offset of digits and a unit as the third segment it is these
    three.  When the value holds no comma the placement attribute and the
    offset attribute are what the placement and the offset are read
    from. *)
Theorem C6_comma_form_wins :
  (forall value,
      includes (char comma) (cleanValue value) = true ->
      forall el1 el2 : Element, parseAnchorConfig el1 value = parseAnchorConfig el2 value)
  /\ (forall value t p,
        cleanValue value = t ++ String comma p ->
        includes (char comma) t = false -> includes (char comma) p = false ->
        trim t <> EmptyString -> trim p <> EmptyString ->
        forall e : Element,
          parseAnchorConfig e value = mkConfig (trim t) (trim p) (ofZ 8) "px")
  /\ (forall value t p o d u,
        cleanValue value = t ++ String comma (p ++ String comma o) ->
        includes (char comma) t = false -> includes (char comma) p = false ->
        includes (char comma) o = false ->
        trim t <> EmptyString -> trim p <> EmptyString ->
        trim o = d ++ u ->
        d <> EmptyString -> allChars isDigit d = true -> shortDigits d ->
        allChars isUnitChar u = true ->
        forall e : Element,
          parseAnchorConfig e value
          = mkConfig (trim t) (trim p) (ofZ (digitsValue 0 d)) (orElse u "px"))
  /\ (forall value (e : Element),
        includes (char comma) value = false ->
        (forall p, getAttribute e "data-anchor-placement" = Some p -> p <> EmptyString ->
                   placement (parseAnchorConfig e value) = p)
        /\ (forall d u,
              getAttribute e "data-anchor-offset" = Some (d ++ u) ->
              d <> EmptyString -> allChars isDigit d = true -> shortDigits d ->
              allChars isUnitChar u = true ->
              offsetValue (parseAnchorConfig e value) = ofZ (digitsValue 0 d)
              /\ offsetUnit (parseAnchorConfig e value) = orElse u "px")).
Proof.
  split; [|split; [|split]].
  - intros value Hc el1 el2. unfold parseAnchorConfig, char in *. now rewrite Hc.
  - intros value t p Hv Ht Hp Tt Tp e.
    rewrite parse_comma by (rewrite Hv; apply has_comma).
    unfold parseCommaForm, commaOffset. rewrite Hv, (parts_two _ _ Ht Hp).
    cbn [List.filter]. rewrite (nonEmpty_true _ Tt), (nonEmpty_true _ Tp). cbn.
    now rewrite (orElse_nonEmpty _ _ Tt), (orElse_nonEmpty _ _ Tp).
  - intros value t p o d u Hv Ht Hp Ho Tt Tp Hdu Hne Hd _ Hu e.
    rewrite parse_comma by (rewrite Hv; apply has_comma).
    unfold parseCommaForm, commaOffset. rewrite Hv, (parts_three _ _ _ Ht Hp Ho).
    assert (To : trim o <> EmptyString).
    { rewrite Hdu. destruct d; [congruence | discriminate]. }
    cbn [List.filter].
    rewrite (nonEmpty_true _ Tt), (nonEmpty_true _ Tp), (nonEmpty_true _ To).
    cbn -[matchOffset parseFloat].
    rewrite (nonEmpty_true _ To), Hdu.
    destruct (matchOffset_digits_unit d u Hne Hd Hu) as [-> ->]. cbn [fst snd].
    now rewrite (orElse_nonEmpty _ _ Tt), (orElse_nonEmpty _ _ Tp).
  - intros value e Hc. unfold parseAnchorConfig, char in *.
    pose proof (includes_char_trim comma _ (includes_char_stripQuotes comma _ Hc)) as Hc'.
    unfold char in Hc'. fold (cleanValue value) in Hc'. rewrite Hc'.
    unfold parseAttributeForm. split.
    + intros p -> Hp. simpl. now apply orElse_nonEmpty.
    + intros d u -> Hne Hd _ Hu. cbn [offsetValue offsetUnit orDefault].
      assert (Hdu : d ++ u <> EmptyString) by (destruct d; [congruence | discriminate]).
      rewrite (orElse_nonEmpty _ _ Hdu).
      destruct (matchOffset_digits_unit d u Hne Hd Hu) as [-> ->]. now split.
Qed.

End ResolverClaims.


(** The comma form wins over the attributes of [Examples.attributed], left
    and 20px, and without a comma these are read. *)
Lemma C6_comma_form_wins_witness :
  Resolver.parseAnchorConfig Examples.attributed "'#t, top, 10px'"
  = Resolver.mkConfig "#t" "top" (Js.ofZ 10) "px"
  /\ Resolver.parseAnchorConfig Examples.attributed "#t, top"
     = Resolver.mkConfig "#t" "top" (Js.ofZ 8) "px"
  /\ Resolver.placement (Resolver.parseAnchorConfig Examples.attributed "#t") = "left"
  /\ Resolver.offsetValue (Resolver.parseAnchorConfig Examples.attributed "#t") = Js.ofZ 20
  /\ Resolver.offsetUnit (Resolver.parseAnchorConfig Examples.attributed "#t") = "px".
Proof.
  destruct C6_comma_form_wins as (_ & Htwo & Hthree & Hattr).
  split; [|split; [|split]].
  - refine (Hthree "'#t, top, 10px'" "#t" " top" " 10px" "10" "px"
              eq_refl eq_refl eq_refl eq_refl _ _ eq_refl _ eq_refl _ eq_refl
              Examples.attributed); try discriminate.
    unfold Invariants.shortDigits. vm_compute. lia.
  - refine (Htwo "#t, top" "#t" " top" eq_refl eq_refl eq_refl _ _ Examples.attributed);
      discriminate.
  - refine (proj1 (Hattr "#t" Examples.attributed eq_refl) "left" eq_refl _). discriminate.
  - refine (proj2 (Hattr "#t" Examples.attributed eq_refl) "20" "px" eq_refl _ eq_refl _
              eq_refl); [discriminate|].
    unfold Invariants.shortDigits. vm_compute. lia.
Defined.

(** ** The alphabet of anchor names *)

Section AnchorNameAlphabet.
Import Js CssNative Invariants.

Lemma sanitizeChar_safe (c : ascii) : isNameChar (sanitizeChar c) = true.
Proof.
  unfold isNameChar, sanitizeChar. destruct (isAlnum c) eqn:E; [now rewrite E|].
  now rewrite Ascii.eqb_refl, orb_true_r.
Qed.

Lemma allChars_app (p : ascii -> bool) (a b : string) :
  allChars p (a ++ b) = allChars p a && allChars p b.
Proof.
  induction a as [|c a IH]; [reflexivity|]. rewrite append_cons. simpl.
  now rewrite IH, andb_assoc.
Qed.

(** X20: the anchor name of any id is a run of letters, digits and
    hyphens (so it is a valid dashed identifier whatever the id holds), it
    is nine characters longer than the id, and sanitising a name again
    changes nothing. *)
Theorem generateAnchorName_alphabet (targetId : string) :
  allChars isNameChar (generateAnchorName targetId) = true
  /\ String.length (generateAnchorName targetId) = (9 + String.length targetId)%nat
  /\ mapChars sanitizeChar (generateAnchorName targetId) = generateAnchorName targetId.
Proof.
  assert (Hsafe : allChars isNameChar (mapChars sanitizeChar targetId) = true).
  { induction targetId as [|c s IH]; [reflexivity|]. simpl.
    now rewrite sanitizeChar_safe, IH. }
  assert (Hfix : forall s, allChars isNameChar s = true -> mapChars sanitizeChar s = s).
  { induction s as [|c s IH]; [reflexivity|]. simpl. intros H.
    apply andb_prop in H as [Hc Hs]. rewrite (IH Hs). f_equal.
    unfold sanitizeChar, isNameChar in *. destruct (isAlnum c); [reflexivity|].
    simpl in Hc. apply Ascii.eqb_eq in Hc. now subst. }
  assert (Hall : allChars isNameChar (generateAnchorName targetId) = true).
  { unfold generateAnchorName. rewrite allChars_app, Hsafe. reflexivity. }
  split; [exact Hall|]. split; [apply generateAnchorName_form | now apply Hfix].
Qed.

End AnchorNameAlphabet.

(** ** The modifier-key plugin: keys and expressions *)

Section LegacyModifiers.
Import Js Dom Legacy Documented Invariants.

Lemma startsWith_digits (c : ascii) (needle d : string) :
  isDigit c = false -> allChars isDigit d = true ->
  startsWith (String c needle) d = false.
Proof.
  intros Hc Hd. destruct d as [|x d]; [reflexivity|]. simpl in *.
  apply andb_prop in Hd as [Hx _].
  destruct (Ascii.eqb_spec c x) as [->|]; [congruence | reflexivity].
Qed.

Lemma includes_digits (c : ascii) (needle d : string) :
  isDigit c = false -> allChars isDigit d = true ->
  includes (String c needle) d = false.
Proof.
  intros Hc. induction d as [|x d IH]; intros Hd; [reflexivity|].
  change (includes (String c needle) (String x d))
    with (startsWith (String c needle) (String x d) || includes (String c needle) d).
  rewrite (startsWith_digits c needle _ Hc Hd).
  simpl in Hd. apply andb_prop in Hd as [_ Hd]. now rewrite IH.
Qed.

Lemma startsWith_app_digits (needle a d : string) :
  needle <> EmptyString -> allChars (fun c => negb (isDigit c)) needle = true ->
  allChars isDigit d = true ->
  startsWith needle (a ++ d) = startsWith needle a.
Proof.
  revert needle. induction a as [|x a IH]; intros needle Hne Hn Hd.
  - destruct needle as [|c n]; [congruence|]. simpl in Hn.
    apply andb_prop in Hn as [Hc _]. apply negb_true_iff in Hc.
    change (EmptyString ++ d) with d. now rewrite startsWith_digits.
  - destruct needle as [|c n]; [congruence|]. rewrite append_cons. simpl.
    destruct n as [|c' n']; [reflexivity|].
    simpl in Hn. apply andb_prop in Hn as [_ Hn]. f_equal. now apply IH.
Qed.

Lemma includes_app_digits (needle a d : string) :
  needle <> EmptyString -> allChars (fun c => negb (isDigit c)) needle = true ->
  allChars isDigit d = true ->
  includes needle (a ++ d) = includes needle a.
Proof.
  intros Hne Hn Hd. induction a as [|x a IH].
  - destruct needle as [|c n]; [congruence|]. simpl in Hn.
    apply andb_prop in Hn as [Hc _]. apply negb_true_iff in Hc.
    change (EmptyString ++ d) with d. now rewrite includes_digits.
  - rewrite append_cons.
    change (includes needle (String x (a ++ d)))
      with (startsWith needle (String x (a ++ d)) || includes needle (a ++ d)).
    change (includes needle (String x a))
      with (startsWith needle (String x a) || includes needle a).
    rewrite IH. f_equal. rewrite <- append_cons. now apply startsWith_app_digits.
Qed.

Lemma split_nonnil (sep : ascii) (s : string) : split sep s <> [].
Proof.
  destruct s as [|c s]; [discriminate|]. simpl.
  destruct (Ascii.eqb c sep); [discriminate|]. destruct (split sep s); discriminate.
Qed.

Lemma split_at (sep : ascii) (a b : string) :
  split sep (a ++ String sep b) = (split sep a ++ split sep b)%list.
Proof.
  induction a as [|x a IH].
  - simpl. now rewrite Ascii.eqb_refl.
  - rewrite append_cons. simpl. rewrite IH.
    destruct (Ascii.eqb x sep); [reflexivity|].
    pose proof (split_nonnil sep a) as Hn.
    destruct (split sep a) as [|seg rest]; [congruence | reflexivity].
Qed.

Lemma digits_no_hyphen (d : string) :
  allChars isDigit d = true -> includes (char hyphen) d = false.
Proof.
  induction d as [|c d IH]; [reflexivity|]. simpl allChars. intros H.
  apply andb_prop in H as [Hc Hd]. rewrite includes_char_cons, (IH Hd), orb_false_r.
  destruct (Ascii.eqb_spec hyphen c) as [<-|]; [discriminate Hc | reflexivity].
Qed.

Lemma trimStart_digits (d : string) : allChars isDigit d = true -> trimStart d = d.
Proof.
  destruct d as [|c d]; [reflexivity|]. simpl. intros H. apply andb_prop in H as [Hc _].
  destruct (isWhitespace c) eqn:E; [|reflexivity]. exfalso.
  unfold isDigit, isWhitespace, codeIn in *.
  repeat match goal with
         | H : _ && _ = true |- _ => apply andb_prop in H as [? ?]
         | H : _ || _ = true |- _ => apply orb_prop in H as [?|?]
         | H : (_ <=? _)%nat = true |- _ => apply Nat.leb_le in H
         | H : (_ =? _)%nat = true |- _ => apply Nat.eqb_eq in H
         end; lia.
Qed.

Lemma parseInt_digits (d : string) :
  d <> EmptyString -> allChars isDigit d = true -> parseInt d = Some (digitsValue 0 d).
Proof.
  intros Hne Hd. unfold parseInt. rewrite (trimStart_digits d Hd).
  destruct d as [|c d']; [congruence|].
  assert (Hh : Ascii.eqb c hyphen = false).
  { simpl in Hd. apply andb_prop in Hd as [Hc _].
    destruct (Ascii.eqb_spec c hyphen) as [->|]; [discriminate Hc | reflexivity]. }
  assert (Hp : Ascii.eqb c (ascii_of_nat 43) = false).
  { simpl in Hd. apply andb_prop in Hd as [Hc _].
    destruct (Ascii.eqb_spec c (ascii_of_nat 43)) as [->|]; [discriminate Hc | reflexivity]. }
  rewrite Hh, Hp, (span_digits _ Hd). cbn [fst nonEmpty].
  now rewrite Z.mul_1_l.
Qed.

Lemma parseInt_unsigned (s : string) (n : Z) :
  includes (char hyphen) s = false -> parseInt s = Some n -> (0 <= n)%Z.
Proof.
  intros Hs. unfold parseInt.
  pose proof (includes_char_trimStart hyphen s Hs) as Ht.
  destruct (trimStart s) as [|c r].
  - simpl. discriminate.
  - rewrite includes_char_cons in Ht. apply orb_false_elim in Ht as [Hc _].
    rewrite Ascii.eqb_sym in Hc. rewrite Hc.
    assert (Hgen : forall t, (if nonEmpty (fst (span isDigit t))
                              then Some (1 * digitsValue 0 (fst (span isDigit t)))%Z
                              else None) = Some n -> (0 <= n)%Z).
    { intros t. pose proof (span_digits_all t) as Hd.
      destruct (nonEmpty _); [|discriminate]. intros [= <-].
      rewrite Z.mul_1_l. apply digitsValue_nonneg; [lia | exact Hd]. }
    destruct (Ascii.eqb c (ascii_of_nat 43)); apply Hgen.
Qed.

(** X21: [parseModifiers] answers one of the twelve placements for every
    key, so the engine's default branch is never reached from this plugin;
    and a placement other than bottom occurs in the key as a substring. *)
Theorem parseModifiers_placement (key : string) :
  recognised (placement (parseModifiers key)) = true
  /\ (placement (parseModifiers key) <> "bottom" ->
      includes (placement (parseModifiers key)) key = true).
Proof.
  unfold parseModifiers. cbn [placement].
  destruct (List.find _ positions) as [position|] eqn:E.
  - apply find_some in E as [Hin Hinc]. split; [|intros _; exact Hinc].
    simpl in Hin.
    repeat (destruct Hin as [<-|Hin]; [reflexivity|]). destruct Hin.
  - split; [reflexivity | congruence].
Qed.

(** X22: the offset that [parseModifiers] answers is never negative:
    the hyphen is the key's separator, so no segment carries a minus sign,
    and a negative offset cannot be written.  For a key of at most 300
    characters, whose digits cannot reach [Infinity], it is a whole
    number. *)
Theorem parseModifiers_offset (key : string) :
  (0 <= offsetValue (parseModifiers key))%Qc
  /\ ((String.length key <= 300)%nat ->
      exists n : Z, (0 <= n)%Z /\ offsetValue (parseModifiers key) = ofZ n).
Proof.
  assert (H : exists n : Z, (0 <= n)%Z /\ offsetValue (parseModifiers key) = ofZ n).
  { unfold parseModifiers. cbn [offsetValue].
    assert (Hdef : exists n : Z, (0 <= n)%Z /\ ofZ 10 = ofZ n)
      by (exists 10%Z; split; [lia | reflexivity]).
    destruct (findIndex _ _) as [offsetIndex|]; [|exact Hdef].
    destruct (split hyphen key !! S offsetIndex) as [next|] eqn:E; [|exact Hdef].
    destruct (nonEmpty next); [|exact Hdef].
    destruct (parseInt next) as [n|] eqn:Hn; [|exact Hdef].
    exists n. split; [|reflexivity].
    apply (parseInt_unsigned next); [|exact Hn].
    pose proof (split_segments hyphen key) as Hs. rewrite List.Forall_forall in Hs.
    apply Hs. apply list_elem_of_lookup_2, list_elem_of_In in E. exact E. }
  split; [|intros _; exact H].
  destruct H as (n & Hn & ->). now apply ofZ_nonneg.
Qed.

(** X23: a key made of anchor, one of the twelve placements, offset and
    a non-empty run of at most 15 digits, joined by hyphens, is read back
    as that placement and that number: the longer placement names are
    looked for first, so top-start is not taken for top. *)
Theorem parseModifiers_round_trip (s : Side) (a : Alignment) (d : string) :
  d <> EmptyString -> allChars isDigit d = true -> shortDigits d ->
  parseModifiers (("anchor-" ++ placementName s a ++ "-offset-") ++ d)
  = mkOptions (placementName s a) (ofZ (digitsValue 0 d)).
Proof.
  intros Hne Hd _. unfold parseModifiers. f_equal.
  - unfold positions, List.find.
    rewrite !(fun needle a Hn Hc => includes_app_digits needle a d Hn Hc Hd)
      by (discriminate || reflexivity).
    destruct s, a; reflexivity.
  - assert (Hsplit : forall p,
              split hyphen ((p ++ "-") ++ d) = (split hyphen p ++ [d])%list).
    { intros p. rewrite append_assoc. change ("-" ++ d) with (String hyphen d).
      rewrite split_at. now rewrite (split_without hyphen d (digits_no_hyphen d Hd)). }
    assert (Hkey : "anchor-" ++ placementName s a ++ "-offset-"
                   = ("anchor-" ++ placementName s a ++ "-offset") ++ "-").
    { destruct s, a; reflexivity. }
    rewrite Hkey, Hsplit.
    destruct s, a;
      match goal with
      | |- context [split hyphen ?p] =>
          let v := eval vm_compute in (split hyphen p) in
          change (split hyphen p) with v
      end;
      cbn -[parseInt ofZ nonEmpty];
      rewrite (nonEmpty_true d Hne), (parseInt_digits d Hne Hd); reflexivity.
Qed.

End LegacyModifiers.

Lemma parseModifiers_round_trip_witness :
  Legacy.parseModifiers "anchor-top-start-offset-20"
  = Legacy.mkOptions "top-start" (Js.ofZ 20).
Proof.
  apply (parseModifiers_round_trip Documented.Top Documented.AtStart "20");
    [discriminate | reflexivity | unfold Invariants.shortDigits; vm_compute; lia].
Defined.

Section LegacyExpression.
Import Js Dom Legacy.

Lemma endsWith_app (p s : string) : endsWith p (s ++ p) = true.
Proof.
  induction s as [|c s IH].
  - change (EmptyString ++ p) with p. destruct p; simpl; [reflexivity|].
    now rewrite Ascii.eqb_refl, String.eqb_refl.
  - rewrite append_cons. simpl. rewrite IH. apply orb_true_r.
Qed.

Lemma dropLast_app (s : string) (c : ascii) : dropLast (s ++ char c) = s.
Proof.
  induction s as [|x s IH]; [reflexivity|]. rewrite append_cons. simpl.
  destruct (s ++ char c) eqn:E; [destruct s; discriminate E|]. now rewrite IH.
Qed.

(** X24: [evaluateExpression] answers the text between the quotes for a
    value in single quotes, [null] exactly for the values that start with
    a dollar sign, and the value itself when it starts with neither. *)
Theorem evaluateExpression_cases (value : string) :
  (forall s, value = "'" ++ s ++ "'" -> evaluateExpression value = Some s)
  /\ (evaluateExpression value = None <-> startsWith "$" value = true)
  /\ (startsWith "'" value = false -> startsWith "$" value = false ->
      evaluateExpression value = Some value).
Proof.
  split; [|split].
  - intros s ->. unfold evaluateExpression.
    change ("'" ++ s ++ "'") with (String "'" (s ++ "'")).
    cbn [startsWith]. rewrite Ascii.eqb_refl. cbn [andb slice].
    assert (endsWith "'" (String "'" (s ++ "'")) = true) as ->.
    { change (String "'" (s ++ "'")) with (("'" ++ s) ++ "'"). apply endsWith_app. }
    f_equal. exact (dropLast_app s "'").
  - unfold evaluateExpression. destruct value as [|c v]; [split; discriminate|].
    cbn [startsWith]. rewrite !andb_true_r.
    destruct (Ascii.eqb_spec "'" c) as [<-|Hq].
    + cbn [andb]. destruct (endsWith "'" _); split; discriminate.
    + cbn [andb]. destruct (Ascii.eqb "$" c); split; congruence.
  - unfold evaluateExpression. intros -> ->. reflexivity.
Qed.

End LegacyExpression.

(** ** The modifier-key plugin: positioning and bookkeeping *)

Section LegacyApply.
Import Js Dom Legacy.

Variable h : Host.

Lemma NoDup_map_inj {A B : Type} (f : A -> B) (l : list A) (x y : A) :
  List.NoDup (map f l) -> In x l -> In y l -> f x = f y -> x = y.
Proof.
  induction l as [|a l IH]; [contradiction|]. simpl.
  intros Hnd Hx Hy Hf. inversion Hnd as [|? ? Hnotin Hnd']; subst.
  destruct Hx as [->|Hx], Hy as [->|Hy]; [reflexivity | | |now apply IH].
  - exfalso. apply Hnotin. rewrite Hf. now apply in_map.
  - exfalso. apply Hnotin. rewrite <- Hf. now apply in_map.
Qed.

Lemma NoDup_map_filter {A B : Type} (f : A -> B) (p : A -> bool) (l : list A) :
  List.NoDup (map f l) -> List.NoDup (map f (List.filter p l)).
Proof.
  induction l as [|a l IH]; [auto|]. simpl. intros Hnd.
  inversion Hnd as [|? ? Hnotin Hnd']; subst.
  destruct (p a); [|now apply IH]. simpl. constructor; [|now apply IH].
  intros Hin. apply Hnotin. apply in_map_iff in Hin as (x & Hx & Hin).
  apply filter_In in Hin as [Hin _]. rewrite <- Hx. now apply in_map.
Qed.

Lemma cleanup_document (element : NodeRef) (st : State) :
  document (cleanup element st) = document st
  /\ nextInstance (cleanup element st) = nextInstance st.
Proof. unfold cleanup. now destruct (autoUpdateInstances st !! element). Qed.

Lemma cleanup_consistent (element : NodeRef) (st : State) :
  consistent st ->
  consistent (cleanup element st)
  /\ autoUpdateInstances (cleanup element st) !! element = None
  /\ (forall a, In a (live (cleanup element st)) <-> In a (live st) /\ floating a <> element).
Proof.
  intros (Hmap & Hlive & Hnd & Hlt). unfold cleanup.
  destruct (autoUpdateInstances st !! element) as [old|] eqn:E.
  - destruct (Hmap _ _ E) as [Hfl Hin]. unfold destroy.
    cbn [document live autoUpdateInstances nextInstance].
    assert (Hkeep : forall a, In a (List.filter
                (fun i => negb (Nat.eqb (instanceId i) (instanceId old))) (live st))
              <-> In a (live st) /\ floating a <> element).
    { intros a. rewrite filter_In. split.
      - intros [Ha Hid]. split; [exact Ha|]. intros Hf.
        pose proof (Hlive a Ha) as Hl. rewrite Hf, E in Hl. injection Hl as ->.
        now rewrite Nat.eqb_refl in Hid.
      - intros [Ha Hf]. split; [exact Ha|]. apply negb_true_iff, Nat.eqb_neq.
        intros Hid. apply Hf. rewrite (NoDup_map_inj instanceId _ a old Hnd Ha Hin Hid).
        exact Hfl. }
    split; [|split; [apply lookup_delete_eq | exact Hkeep]].
    unfold consistent. cbn [document live autoUpdateInstances nextInstance].
    split; [|split; [|split]].
    + intros e a Ha. destruct (decide (e = element)) as [->|Hne].
      * now rewrite lookup_delete_eq in Ha.
      * rewrite lookup_delete_ne in Ha by congruence.
        destruct (Hmap _ _ Ha) as [Hf Hi]. split; [exact Hf|].
        apply Hkeep. split; [exact Hi | congruence].
    + intros a Ha. apply Hkeep in Ha as [Ha Hf].
      rewrite lookup_delete_ne by congruence. now apply Hlive.
    + now apply NoDup_map_filter.
    + rewrite List.Forall_forall in *. intros a Ha. apply Hkeep in Ha as [Ha _]. now apply Hlt.
  - split; [exact (conj Hmap (conj Hlive (conj Hnd Hlt)))|]. split; [exact E|].
    intros a. split; [|tauto]. intros Ha. split; [exact Ha|].
    intros Hf. pose proof (Hlive a Ha) as Hl. rewrite Hf, E in Hl. discriminate.
Qed.

Lemma consistent_initial (doc : Document) : consistent (initial doc).
Proof.
  unfold consistent, initial. cbn [live autoUpdateInstances nextInstance].
  split; [|split; [|split]].
  - intros element a H. now rewrite lookup_empty in H.
  - intros a [].
  - constructor.
  - constructor.
Qed.

Lemma setupAutoUpdate_consistent (element target : NodeRef) (opts : AnchorOptions)
    (st : State) :
  consistent st ->
  let st' := setupAutoUpdate h element target opts st in
  let fresh :=
    mkAutoUpdate (nextInstance st) target element opts (hasResizeObserver h)
      (hasMutationObserver h) in
  consistent st'
  /\ document st' = document st
  /\ autoUpdateInstances st' !! element = Some fresh
  /\ (forall a, In a (live st') <-> (In a (live st) /\ floating a <> element) \/ a = fresh).
Proof.
  intros Hc. cbv zeta. unfold setupAutoUpdate.
  destruct (cleanup_consistent element st Hc) as ((Hmap & Hlive & Hnd & Hlt) & Hnone & Hkeep).
  destruct (cleanup_document element st) as [Hdoc Hnext].
  cbn [document live autoUpdateInstances nextInstance]. rewrite Hnext.
  set (fresh := mkAutoUpdate (nextInstance st) target element opts _ _).
  assert (Hin : forall a, In a (live (cleanup element st) ++ [fresh])%list
                          <-> (In a (live st) /\ floating a <> element) \/ a = fresh).
  { intros a. rewrite in_app_iff, Hkeep. simpl. intuition. }
  split; [|split; [exact Hdoc | split; [apply lookup_insert_eq | exact Hin]]].
  unfold consistent. cbn [document live autoUpdateInstances nextInstance].
  rewrite Hnext in Hlt.
  split; [|split; [|split]].
  - intros e a Ha. destruct (decide (e = element)) as [->|Hne].
    + rewrite lookup_insert_eq in Ha. injection Ha as <-. split; [reflexivity|].
      apply in_app_iff. right. now left.
    + rewrite lookup_insert_ne in Ha by congruence.
      destruct (Hmap _ _ Ha) as [Hf Hi]. split; [exact Hf|].
      apply in_app_iff. now left.
  - intros a Ha. apply in_app_iff in Ha as [Ha|[<-|[]]].
    + assert (Hf : floating a <> element).
      { now apply Hkeep in Ha as [_ Hf]. }
      rewrite lookup_insert_ne by congruence. now apply Hlive.
    + apply lookup_insert_eq.
  - rewrite map_app. apply List.NoDup_app; [exact Hnd | |].
    + repeat constructor. intros [].
    + intros x Hx [Hx'|[]]. cbn in Hx'. subst x.
      apply in_map_iff in Hx as (a & Hid & Ha).
      rewrite List.Forall_forall in Hlt. specialize (Hlt a Ha). cbn in Hlt. lia.
  - apply Forall_app. split.
    + eapply Forall_impl; [exact Hlt|]. intros a Ha. cbn in *. lia.
    + constructor; [cbn; lia | constructor].
Qed.

(** X25: [apply] leaves the document and the bookkeeping as they were
    when the expression is a signal reference or evaluates to the empty
    string, when no node is found, and when the selector engine raises:
    the exception is caught, unlike in [onLoad] of the other draft. *)
Theorem apply_does_nothing (st : State) (element : NodeRef) (key value : string) :
  (evaluateExpression value = None
   \/ evaluateExpression value = Some EmptyString
   \/ exists selector,
        evaluateExpression value = Some selector
        /\ (findTargetElement (browser h) (document st) selector = Normal None
            \/ exists e, findTargetElement (browser h) (document st) selector = Throw e)) ->
  apply h st element key value = st.
Proof.
  unfold apply. intros [->|[->|(selector & -> & [Hf|[e Hf]])]]; [reflexivity..| |];
    destruct (nonEmpty selector); rewrite ?Hf; reflexivity.
Qed.

(** X26: [apply] and [cleanup] keep the bookkeeping consistent (the live
    instances are the entries of [autoUpdateInstances], each under its own
    floating element), so listeners never stack: two live instances never
    share a floating element, and after [cleanup] the element has none
    while the instances of the other elements stay. *)
Theorem legacy_listeners_never_stack (st : State) (element : NodeRef) (key value : string) :
  consistent st ->
  consistent (apply h st element key value)
  /\ consistent (cleanup element st)
  /\ (forall a a', In a (live st) -> In a' (live st) -> floating a = floating a' -> a = a')
  /\ (forall a, In a (live (cleanup element st)) <-> In a (live st) /\ floating a <> element).
Proof.
  intros Hc. split; [|split; [|split]].
  - unfold apply. destruct (evaluateExpression value) as [selector|]; [|exact Hc].
    destruct (nonEmpty selector); [|exact Hc].
    destruct (findTargetElement _ _ _) as [[target|]|e]; [|exact Hc..].
    match goal with
    | |- consistent (setupAutoUpdate h element target ?o ?s) =>
        apply (setupAutoUpdate_consistent element target o s)
    end.
    exact Hc.
  - now apply cleanup_consistent.
  - destruct Hc as (_ & Hlive & _). intros a a' Ha Ha' Hf.
    pose proof (Hlive a Ha) as H1. pose proof (Hlive a' Ha') as H2.
    rewrite Hf, H2 in H1. now injection H1.
  - now apply cleanup_consistent.
Qed.

(** X27: a call of [apply] that finds its target leaves the floating
    element absolutely positioned, of width max-content and z-index 1000,
    with [left] and [top] from the engine (for the rectangles the layout
    reports, the placement and the offset parsed from the key) in place of
    the zeros written first; no other node changes, and the element's
    earlier instance, if any, is replaced by one fresh instance. *)
Theorem apply_positions_and_registers (st : State) (element target : NodeRef)
    (key value selector : string) :
  consistent st ->
  is_Some (document st !! element) ->
  evaluateExpression value = Some selector -> selector <> EmptyString ->
  findTargetElement (browser h) (document st) selector = Normal (Some target) ->
  let st' := apply h st element key value in
  let opts := parseModifiers key in
  let position :=
    FloatingUICore.computePosition (window (browser h))
      (rect (node (document st) target)) (rect (node (document st) element))
      (FloatingUICore.mkOptions (Some (placement opts)) (Some (offsetValue opts))) in
  let fresh :=
    mkAutoUpdate (nextInstance st) target element opts (hasResizeObserver h)
      (hasMutationObserver h) in
  style (node (document st') element) !! "position" = Some (text "absolute")
  /\ style (node (document st') element) !! "width" = Some (text "max-content")
  /\ style (node (document st') element) !! "zIndex" = Some (text "1000")
  /\ style (node (document st') element) !! "left"
     = Some [Num (FloatingUICore.x position); Lit "px"]
  /\ style (node (document st') element) !! "top"
     = Some [Num (FloatingUICore.y position); Lit "px"]
  /\ (forall n, n <> element -> document st' !! n = document st !! n)
  /\ autoUpdateInstances st' !! element = Some fresh
  /\ (forall a, In a (live st') <-> (In a (live st) /\ floating a <> element) \/ a = fresh).
Proof.
  intros Hc Hel Hv Hne Hf. cbv zeta. unfold apply. rewrite Hv, (nonEmpty_true _ Hne), Hf.
  match goal with
  | |- context [setupAutoUpdate h element target ?o ?s] =>
      assert (Hs : consistent s) by exact Hc;
      destruct (setupAutoUpdate_consistent element target o s Hs) as (_ & Hdoc & Hmap & Hlive)
  end.
  split; [|split; [|split; [|split; [|split; [|split; [|split; [exact Hmap | exact Hlive]]]]]]];
    rewrite Hdoc; clear Hdoc Hmap Hlive; cbn [document]; unfold positionElement;
    set (doc1 := update prepareFloatingElement element (document st));
    assert (Hel1 : is_Some (doc1 !! element))
      by (unfold doc1, update, NodeRef, Document in *; rewrite list_lookup_alter_eq;
          destruct Hel as [e ->]; now eexists);
    assert (Hrect : forall n, rect (node doc1 n) = rect (node (document st) n))
      by (intros n; now apply node_update_layout);
    rewrite ?Hrect.
  1-5: rewrite (node_update_eq _ _ _ Hel1); unfold doc1;
       rewrite (node_update_eq _ _ _ Hel);
       unfold prepareFloatingElement, setStyle; cbn [style];
       repeat (rewrite lookup_insert_ne by discriminate); apply lookup_insert_eq.
  intros n Hn. rewrite lookup_update_ne by congruence. unfold doc1.
  now rewrite lookup_update_ne by congruence.
Qed.

End LegacyApply.

(** A signal reference as the value. *)
Lemma apply_does_nothing_witness :
  Legacy.apply Scenarios.host (Legacy.initial Scenarios.nodes) 2 "anchor-top" "$trigger"
  = Legacy.initial Scenarios.nodes.
Proof.
  apply apply_does_nothing. left. reflexivity.
Defined.

Lemma legacy_listeners_never_stack_witness :
  Legacy.consistent
    (Legacy.apply Scenarios.host (Legacy.initial Scenarios.nodes) 2 "anchor-top-offset-20"
       "'#my-button'").
Proof.
  exact (proj1 (legacy_listeners_never_stack Scenarios.host (Legacy.initial Scenarios.nodes)
                  2 "anchor-top-offset-20" "'#my-button'"
                  (consistent_initial Scenarios.nodes))).
Defined.

(** The first floating element of the scene below the target my-button,
    20 pixels away: the target is 200 wide at (400, 300) and 30 high, the
    box 50 wide, so the box goes to (475, 350). *)
Lemma apply_positions_and_registers_witness :
  let st :=
    Legacy.apply Scenarios.host (Legacy.initial Scenarios.nodes) 2 "anchor-bottom-offset-20"
      "'#my-button'" in
  Dom.style (Dom.node (Legacy.document st) 2) !! "left"
  = Some [Dom.Num (Js.ofZ 475); Dom.Lit "px"]
  /\ Dom.style (Dom.node (Legacy.document st) 2) !! "top"
     = Some [Dom.Num (Js.ofZ 350); Dom.Lit "px"].
Proof.
  cbv zeta.
  destruct (apply_positions_and_registers Scenarios.host (Legacy.initial Scenarios.nodes) 2 1
              "anchor-bottom-offset-20" "'#my-button'" "#my-button")
    as (_ & _ & _ & Hleft & Htop & _).
  - exact (consistent_initial Scenarios.nodes).
  - eexists. reflexivity.
  - reflexivity.
  - discriminate.
  - reflexivity.
  - rewrite Hleft, Htop. split; vm_compute; reflexivity.
Defined.

(** ** The plugin loader *)

Section LoaderHelpers.
Import Js Loader.

(** X28: the loader asks for the anchor plugin exactly for the
    attributes whose name starts with data-anchor. *)
Theorem anchor_attributes (attrName : string) :
  getPluginFromAttribute attrName = Name "anchor"
  <-> startsWith "data-anchor" attrName = true.
Proof.
  unfold getPluginFromAttribute, exactMatches, CssNative.objectPrototypeNames.
  cbn [map switch existsb].
  repeat match goal with
         | |- context [String.eqb attrName ?k] =>
             destruct (String.eqb_spec attrName k) as [->|_];
             [vm_compute; split; discriminate|]
         end.
  cbn [orb].
  destruct (startsWith "data-anchor" attrName); [tauto|].
  destruct (startsWith "data-tooltip" attrName); [split; discriminate|].
  destruct (startsWith "data-modal" attrName); split; discriminate.
Qed.

(** X29: an attribute name that extends data-tooltip or data-modal asks
    for that plugin by its prefix, but data-dropdown is matched exactly
    only: with any non-empty suffix it asks for no plugin. *)
Theorem dropdown_is_exact_only (suffix : string) :
  getPluginFromAttribute ("data-tooltip" ++ suffix) = Name "tooltip"
  /\ getPluginFromAttribute ("data-modal" ++ suffix) = Name "modal"
  /\ getPluginFromAttribute ("data-dropdown" ++ suffix)
     = if nonEmpty suffix then Null else Name "dropdown".
Proof.
  destruct suffix as [|c r]; [repeat split|].
  cbv [String.append]. cbn [nonEmpty].
  repeat split; vm_compute; reflexivity.
Qed.

Lemma afterLastSlash_none (s : string) :
  includes (char slash) s = false -> afterLastSlash s = None.
Proof.
  induction s as [|c s IH]; [reflexivity|]. rewrite includes_char_cons.
  intros H. apply orb_false_elim in H as [Hc Hs]. simpl.
  rewrite (IH Hs). rewrite Ascii.eqb_sym in Hc. now rewrite Hc.
Qed.

Lemma afterLastSlash_app (pre seg : string) :
  includes (char slash) seg = false ->
  afterLastSlash (pre ++ String slash seg) = Some seg.
Proof.
  intros Hs. induction pre as [|c pre IH].
  - change (EmptyString ++ String slash seg) with (String slash seg). simpl.
    now rewrite (afterLastSlash_none _ Hs).
  - rewrite append_cons. simpl. now rewrite IH.
Qed.

Lemma afterLastSlash_sound (s seg : string) :
  afterLastSlash s = Some seg ->
  includes (char slash) seg = false /\ exists pre, s = pre ++ String slash seg.
Proof.
  revert seg. induction s as [|c s IH]; [discriminate|]. simpl. intros seg.
  destruct (afterLastSlash s) as [seg'|] eqn:E.
  - intros [= <-]. destruct (IH _ eq_refl) as [Hn [pre ->]]. split; [exact Hn|].
    now exists (String c pre).
  - destruct (Ascii.eqb_spec c slash) as [->|_]; [|discriminate]. intros [= <-].
    split; [|now exists EmptyString].
    clear IH. induction s as [|x s IHs]; [reflexivity|]. simpl in E.
    destruct (afterLastSlash s); [discriminate|].
    rewrite includes_char_cons. destruct (Ascii.eqb_spec x slash) as [->|Hx]; [discriminate|].
    rewrite IHs by reflexivity. rewrite orb_false_r.
    destruct (Ascii.eqb_spec slash x); congruence.
Qed.

Lemma length_app (a b : string) :
  String.length (a ++ b) = (String.length a + String.length b)%nat.
Proof. induction a as [|c a IH]; [reflexivity|]. rewrite append_cons. simpl. now rewrite IH. Qed.

Lemma stripSuffix_app (suffix a : string) : stripSuffix suffix (a ++ suffix) = Some a.
Proof.
  induction a as [|c a IH].
  - change (EmptyString ++ suffix) with suffix. destruct suffix; simpl.
    + reflexivity.
    + now rewrite Ascii.eqb_refl, String.eqb_refl.
  - rewrite append_cons.
    assert (Hne : (String c (a ++ suffix) =? suffix) = false).
    { apply String.eqb_neq. intros H. apply (f_equal String.length) in H.
      simpl in H. rewrite length_app in H. lia. }
    change (stripSuffix suffix (String c (a ++ suffix)))
      with (if String c (a ++ suffix) =? suffix then Some EmptyString
            else String c <$> stripSuffix suffix (a ++ suffix)).
    now rewrite Hne, IH.
Qed.

Lemma stripSuffix_sound (suffix s a : string) :
  stripSuffix suffix s = Some a -> s = a ++ suffix.
Proof.
  revert a. induction s as [|c s IH]; intros a.
  - simpl. destruct suffix; [now intros [= <-] | discriminate].
  - change (stripSuffix suffix (String c s))
      with (if String c s =? suffix then Some EmptyString
            else String c <$> stripSuffix suffix s).
    destruct (String.eqb_spec (String c s) suffix) as [->|_].
    + now intros [= <-].
    + destruct (stripSuffix suffix s) as [a'|]; [|discriminate].
      intros [= <-]. rewrite append_cons. f_equal. now apply IH.
Qed.

(** X30: the name taken from a URL is everything between the last slash
    and the ending .js, so the ending -browser of the registry's URLs
    stays in the name (the optional part of the pattern never matches it);
    and unknown is answered for every URL that is not of this form. *)
Theorem extractPluginNameFromUrl_shape (url : string) :
  (forall pre name,
     url = pre ++ "/" ++ name ++ ".js" -> name <> EmptyString ->
     includes "/" name = false ->
     extractPluginNameFromUrl url = name)
  /\ (extractPluginNameFromUrl url = "unknown"
      \/ exists pre,
           url = pre ++ "/" ++ extractPluginNameFromUrl url ++ ".js"
           /\ extractPluginNameFromUrl url <> EmptyString
           /\ includes "/" (extractPluginNameFromUrl url) = false).
Proof.
  split.
  - intros pre name -> Hne Hs. unfold extractPluginNameFromUrl.
    change ("/" ++ name ++ ".js") with (String slash (name ++ ".js")).
    rewrite afterLastSlash_app.
    + rewrite stripSuffix_app. now rewrite (nonEmpty_true _ Hne).
    + change "/" with (char slash) in Hs. now rewrite includes_char_app, Hs.
  - unfold extractPluginNameFromUrl.
    destruct (afterLastSlash url) as [segment|] eqn:E; [|now left].
    destruct (stripSuffix ".js" segment) as [group1|] eqn:E2; [|now left].
    destruct (nonEmpty group1) eqn:E3; [|now left]. right.
    apply afterLastSlash_sound in E as [Hn [pre ->]].
    apply stripSuffix_sound in E2 as ->.
    exists pre. split; [reflexivity|]. split; [now apply nonEmpty_iff|].
    change "/" with (char slash). rewrite includes_char_app in Hn.
    now apply orb_false_elim in Hn as [Hn _].
Qed.

End LoaderHelpers.
